(** * The transports of mcp-anywhere, embedded in Rocq

    A shallow embedding of the four transports of the repository
    (client/stdio.ts, client/sse.ts, server/sse.ts, server/stdio.ts) and the
    properties of them that the specification states.

    Conventions of the embedding.
    - A JavaScript object used as a string-keyed record
      ([Record<string, string>]) is a [gmap string _]; spreading
      [{...a, ...b}] is the union in which [b] wins.
    - [undefined] is [None].
    - A thrown exception (a rejected promise, for an [async] method) is the
      left injection of a sum, or is recorded as the way the call ends.
    - An optional callback invocation [this.onX?.(v)] is an entry of the trace
      of callback invocations a method produces; with no handler registered the
      call is a no-op, and a registered handler is assumed to return normally.
    - What the platform supplies (the URL parser, the random source, the
      message schema, the network, the child process) is a parameter, or an
      explicit script of the outcomes the platform produces, consumed in
      order. *)

From stdpp Require Import gmap strings list pretty.
From Stdlib Require Import ZArith Ascii String.

Open Scope string_scope.

(** JavaScript's [Error]: a name and a message, and the [code] that the
    subclass [SseError] adds. *)
Record Error := mkError { name : string; message : string; code : option Z }.

Definition named_Error (name msg : string) : Error := mkError name msg None.

Definition new_Error (msg : string) : Error := named_Error "Error" msg.

(** [s.startsWith(p)]. *)
Definition startsWith (s p : string) : bool := String.prefix p s.

(** ** What the platform supplies

    The URL parser, JSON, the message schema ([JSONRPCMessageSchema] of
    types.ts), the [content-type] package and [Buffer] decoding are used by
    the transports and defined outside the repository's transport files. The
    development is parametric in them. *)

Record ContentType := { ct_type : string; ct_parameters : gmap string string }.

Class Platform := {
  (** [URL]: [new URL(input, base)] ([None] when it throws) and the
      properties the transports read. *)
  URL : Type;
  URL_new : string → string → option URL;
  href : URL → string;
  origin : URL → string;
  pathname : URL → string;
  search : URL → string;
  hash : URL → string;
  (** [url.searchParams.set(name, value)] *)
  searchParams_set : URL → string → string → URL;
  (** JSON values, [JSON.parse], [JSON.stringify] and [String(v)] *)
  JSONValue : Type;
  JSON_parse : string → Error + JSONValue;
  JSON_stringify : JSONValue → string;
  JSON_String : JSONValue → string;
  (** [JSONRPCMessageSchema.parse] and the inclusion of messages in values *)
  JSONRPCMessage : Type;
  JSONRPCMessageSchema_parse : JSONValue → Error + JSONRPCMessage;
  message_value : JSONRPCMessage → JSONValue;
  (** [contentType.parse] *)
  contentType_parse : string → Error + ContentType;
  (** [Buffer.concat(chunks).toString(encoding)] on the concatenated bytes *)
  Buffer_toString : string → string → string;
  (** the principal an external router attaches to a request *)
  AuthInfo : Type;
  (** [new UnauthorizedError(message)] of client/auth.ts *)
  UnauthorizedError : option string → Error
}.

(** [name.toLowerCase()], on the ASCII letters. *)
Definition lower_ascii (c : ascii) : ascii :=
  let n := nat_of_ascii c in
  if (65 <=? n)%nat && (n <=? 90)%nat then ascii_of_nat (n + 32) else c.

Fixpoint toLowerCase (s : string) : string :=
  match s with
  | EmptyString => EmptyString
  | String c s' => String (lower_ascii c) (toLowerCase s')
  end.

(** A template literal prints [undefined] for a missing value. *)
Definition template_opt (o : option string) : string := default "undefined" o.

(** [String(error)] *)
Definition String_of_Error (e : Error) : string := name e ++ ": " ++ message e.

(** A header value of a Node request: a string or an array of strings. *)
Inductive header_value := Single (s : string) | Multi (l : list string).

(** [req.headers]: a plain object or a Fetch [Headers] instance. A [Headers]
    instance stores its names in lower case and [get] looks names up without
    regard to case. *)
Inductive headers_t :=
  | PlainHeaders (h : gmap string header_value)
  | FetchHeaders (h : gmap string string).

(** The closure [getHeader] that both [validateRequestHeaders] and
    [handlePostMessage] define. *)
Definition getHeader (headers : headers_t) (name : string) : option string :=
  match headers with
  | FetchHeaders h =>
      match h !! toLowerCase name with
      | Some "" => None
      | Some v => Some v
      | None => None
      end
  | PlainHeaders h =>
      match h !! toLowerCase name with
      | Some (Multi l) => head l
      | Some (Single v) => Some v
      | None => None
      end
  end.

(** [!s] for [s : string | undefined] *)
Definition falsy (o : option string) : bool :=
  match o with
  | None => true
  | Some "" => true
  | Some _ => false
  end.

(** [list.includes(v)] for [v : string | undefined] and a list of strings *)
Definition includes (l : list string) (v : option string) : bool :=
  match v with
  | None => false
  | Some s => existsb (String.eqb s) l
  end.

(** The line feed character. *)
Definition LF : string := String (ascii_of_nat 10) EmptyString.

(** A JavaScript string is modelled by the string of its UTF-16 code units,
    for code units below 256, so that [String.length] is its [length].
    [utf8_encode] gives the bytes of such a string in UTF-8, the encoding of
    a request body that [req.text()] decodes: one byte for a code unit below
    128, two bytes for the others. *)
Definition utf8_bytes (c : ascii) : string :=
  let n := nat_of_ascii c in
  if (n <? 128)%nat then String c EmptyString
  else String (ascii_of_nat (192 + n / 64))
         (String (ascii_of_nat (128 + n mod 64)) EmptyString).

Fixpoint utf8_encode (s : string) : string :=
  match s with
  | EmptyString => EmptyString
  | String c rest => utf8_bytes c ++ utf8_encode rest
  end.

(** What a method does to a response object. *)
Inductive res_event :=
  | WriteHead (status : Z) (headers : list (string * string))
  | Write (chunk : string)
  | End (chunk : option string).

(** ** What the transports share *)

Section Common.
Context `{Platform}.

(** The [extra] argument of [onmessage], passed by the push server only. *)
Record MessageExtraInfo := {
  requestInfo : gmap string header_value;
  authInfo : option AuthInfo
}.

(** Callback invocations. *)
Inductive callback :=
  | OnMessage (m : JSONRPCMessage) (extra : option MessageExtraInfo)
  | OnError (e : Error)
  | OnClose.

(** How a method call ends: it returns, it throws, or the promise it awaits
    never settles. *)
Inductive completion := Returned | Threw (e : Error) | Pending.

Definition is_OnClose (c : callback) : bool :=
  match c with OnClose => true | _ => false end.

Definition is_OnMessage (c : callback) : bool :=
  match c with OnMessage _ _ => true | _ => false end.

Definition is_OnError (c : callback) : bool :=
  match c with OnError _ => true | _ => false end.

End Common.

(** ** shared/stdio.ts: the read buffer

    The stdio transports keep a [ReadBuffer] and call its [append],
    [readMessage] and [clear]. The class lives in shared/stdio.ts, which is
    not among the files; it is modelled from the specification. The buffer is
    the string of the bytes it holds. *)

Module ReadBuffer.
Section WithPlatform.
Context `{Platform}.

(** Modelled from the spec: [deserializeMessage] of shared/stdio.ts (4.1,
    decode: parse the JSON text, then validate it against the message schema;
    either step may fail). *)
Definition deserializeMessage (line : string) : Error + JSONRPCMessage :=
  match JSON_parse line with
  | inl e => inl e
  | inr v => JSONRPCMessageSchema_parse v
  end.

(** Modelled from the spec: [serializeMessage] of shared/stdio.ts (4.1,
    encode: the JSON encoding followed by a newline). *)
Definition serializeMessage (message : JSONRPCMessage) : string :=
  JSON_stringify (message_value message) ++ LF.

(** Modelled from the spec: the scan of [take_message] for the delimiter of
    shared/stdio.ts (4.2): the slice before the first newline and the
    remainder after it, [None] when the buffer holds no newline. *)
Fixpoint take_line (buffer : string) : option (string * string) :=
  match buffer with
  | EmptyString => None
  | String c rest =>
      if Ascii.eqb c (ascii_of_nat 10) then Some (EmptyString, rest)
      else
        match take_line rest with
        | Some (line, rest') => Some (String c line, rest')
        | None => None
        end
  end.

(** Modelled from the spec: [ReadBuffer.append] of shared/stdio.ts (4.2,
    append concatenates). *)
Definition append (buffer chunk : string) : string := buffer ++ chunk.

(** Modelled from the spec: [ReadBuffer.readMessage] of shared/stdio.ts (4.2,
    take_message: if the delimiter is found, remove the delimited slice and
    return it decoded, leaving the remainder buffered; if not, return "no
    message yet"). The result is the buffer afterwards with the message
    ([None] for [null]) or the error thrown by the decoding. *)
Definition readMessage (buffer : string)
    : string * (Error + option JSONRPCMessage) :=
  match take_line buffer with
  | None => (buffer, inr None)
  | Some (line, rest) =>
      (rest,
       match deserializeMessage line with
       | inl e => inl e
       | inr message => inr (Some message)
       end)
  end.

(** Modelled from the spec: [ReadBuffer.clear] of shared/stdio.ts (3, the
    reassembly buffer is cleared on close). *)
Definition clear (buffer : string) : string := EmptyString.

(** [processReadBuffer()], the method of this name of [StdioServerTransport]
    and of [StdioClientTransport] (the two bodies are the same text): the
    [while (true)] loop, run for at most [fuel] turns. The result is the
    buffer afterwards and the callbacks invoked, [None] when the turns run
    out. *)
Fixpoint processReadBuffer_loop (fuel : nat) (buffer : string)
    : option (string * list callback) :=
  match fuel with
  | O => None
  | S fuel =>
      match readMessage buffer with
      | (buffer, inr None) => Some (buffer, [])
      | (buffer, inr (Some message)) =>
          match processReadBuffer_loop fuel buffer with
          | Some (buffer, cbs) => Some (buffer, OnMessage message None :: cbs)
          | None => None
          end
      | (buffer, inl error) =>
          match processReadBuffer_loop fuel buffer with
          | Some (buffer, cbs) => Some (buffer, OnError error :: cbs)
          | None => None
          end
      end
  end.

(** Every turn but the last removes at least one byte, so one turn more than
    the buffer has bytes is enough (see [processReadBuffer_total]). *)
Definition processReadBuffer (buffer : string) : option (string * list callback) :=
  processReadBuffer_loop (S (String.length buffer)) buffer.

(** The complete lines of a buffer and the partial line after them. *)
Fixpoint split_lines (buffer : string) : list string * string :=
  match buffer with
  | EmptyString => ([], EmptyString)
  | String c rest =>
      let (lines, partial) := split_lines rest in
      if Ascii.eqb c (ascii_of_nat 10) then (EmptyString :: lines, partial)
      else
        match lines with
        | [] => ([], String c partial)
        | line :: lines' => (String c line :: lines', partial)
        end
  end.

(** What the loop does with one line. *)
Definition deliver (line : string) : callback :=
  match deserializeMessage line with
  | inl error => OnError error
  | inr message => OnMessage message None
  end.

(** [s] holds no line feed. *)
Fixpoint no_LF (s : string) : bool :=
  match s with
  | EmptyString => true
  | String c rest => negb (Ascii.eqb c (ascii_of_nat 10)) && no_LF rest
  end.

End WithPlatform.
End ReadBuffer.

(** ** server/stdio.ts *)

Module StdioServer.
Section WithPlatform.
Context `{Platform}.

(** The input stream as the transport sees it: whether its own two listeners
    are attached, how many other [data] listeners there are, and whether the
    stream is paused. *)
Record NodeReadable := {
  own_listeners : bool;
  other_data_listeners : nat;
  paused : bool
}.

Record StdioServerTransport := {
  _readBuffer : string;
  _started : bool;
  _stdin : NodeReadable
}.

Definition constructor (isNode : bool) (stdin : NodeReadable)
    : Error + StdioServerTransport :=
  if negb isNode
  then inl (new_Error "StdioServerTransport is only available in Node.js environments. Use SSEServerTransport or StreamableHTTPServerTransport for browsers and edge runtimes.")
  else inr {| _readBuffer := EmptyString; _started := false; _stdin := stdin |}.

Definition start (t : StdioServerTransport) : Error + StdioServerTransport :=
  if _started t
  then inl (new_Error "StdioServerTransport already started! If using Server class, note that connect() calls start() automatically.")
  else inr {| _readBuffer := _readBuffer t; _started := true;
              _stdin := {| own_listeners := true;
                           other_data_listeners := other_data_listeners (_stdin t);
                           paused := paused (_stdin t) |} |}.

(** [_ondata]: append the chunk, then drain the buffer. *)
Definition _ondata (t : StdioServerTransport) (chunk : string)
    : option (StdioServerTransport * list callback) :=
  match ReadBuffer.processReadBuffer (ReadBuffer.append (_readBuffer t) chunk) with
  | Some (buffer, cbs) =>
      Some ({| _readBuffer := buffer; _started := _started t; _stdin := _stdin t |}, cbs)
  | None => None
  end.

Definition _onerror (t : StdioServerTransport) (error : Error)
    : StdioServerTransport * list callback :=
  (t, [OnError error]).

Definition close (t : StdioServerTransport) : StdioServerTransport * list callback :=
  let remainingDataListeners := other_data_listeners (_stdin t) in
  ({| _readBuffer := ReadBuffer.clear (_readBuffer t);
      _started := _started t;
      _stdin := {| own_listeners := false;
                   other_data_listeners := remainingDataListeners;
                   paused := if (remainingDataListeners =? 0)%nat then true
                             else paused (_stdin t) |} |},
   [OnClose]).

(** The [data] events of a run of chunks, one after the other. *)
Fixpoint feed (t : StdioServerTransport) (chunks : list string)
    : option (StdioServerTransport * list callback) :=
  match chunks with
  | [] => Some (t, [])
  | chunk :: rest =>
      match _ondata t chunk with
      | None => None
      | Some (t', cbs) =>
          match feed t' rest with
          | None => None
          | Some (t'', cbs') => Some (t'', (cbs ++ cbs')%list)
          end
      end
  end.

(** [send(message)]: the bytes written to stdout, and whether the promise
    resolves at once or at the next [drain] event; [accepted] is what
    [this._stdout.write(json)] returns. *)
Inductive resolution := AtOnce | OnDrain.

Definition send (message : JSONRPCMessage) (accepted : bool) : string * resolution :=
  (ReadBuffer.serializeMessage message, if accepted then AtOnce else OnDrain).

(** What happens to the transport: calls of its methods, and the [data] and
    [error] events of stdin, which reach [_ondata] and [_onerror] only while
    the two listeners are attached. *)
Inductive op :=
  | CallStart
  | CallClose
  | StdinData (chunk : string)
  | StdinError (e : Error).

Definition step (t : StdioServerTransport) (o : op)
    : option (StdioServerTransport * list callback * completion) :=
  match o with
  | CallStart =>
      match start t with
      | inl e => Some (t, [], Threw e)
      | inr t' => Some (t', [], Returned)
      end
  | CallClose => let (t', cbs) := close t in Some (t', cbs, Returned)
  | StdinData chunk =>
      if own_listeners (_stdin t) then
        match _ondata t chunk with
        | Some (t', cbs) => Some (t', cbs, Returned)
        | None => None
        end
      else Some (t, [], Returned)
  | StdinError e =>
      if own_listeners (_stdin t) then
        let (t', cbs) := _onerror t e in Some (t', cbs, Returned)
      else Some (t, [], Returned)
  end.

Fixpoint run (t : StdioServerTransport) (ops : list op)
    : option (StdioServerTransport * list callback) :=
  match ops with
  | [] => Some (t, [])
  | o :: rest =>
      match step t o with
      | None => None
      | Some (t', cbs, _) =>
          match run t' rest with
          | None => None
          | Some (t'', cbs') => Some (t'', (cbs ++ cbs')%list)
          end
      end
  end.

(** The bytes a run of [send] calls writes to stdout, each message with
    what [write] returned for it. *)
Fixpoint written (messages : list (JSONRPCMessage * bool)) : string :=
  match messages with
  | [] => ""
  | (message, accepted) :: rest => fst (send message accepted) ++ written rest
  end.

End WithPlatform.
End StdioServer.

(** ** client/stdio.ts: the environment of the spawned server *)

Module StdioClient.

(** The global [process] object, as far as the file reads it:
    [process.versions.node], [process.platform], [process.env] and whether it
    has a [type] property (Electron). A runtime with no [process] global is
    [None]. *)
Record versions_t := { node : option string }.

Record process_t := {
  versions : option versions_t;
  platform : string;
  env : gmap string string;
  has_type : bool
}.

(** [typeof process !== 'undefined' && process.versions != null &&
    process.versions.node != null] *)
Definition isNode (process : option process_t) : bool :=
  match process with
  | None => false
  | Some p =>
      match versions p with
      | None => false
      | Some v => match node v with None => false | Some _ => true end
      end
  end.

Definition WIN32_INHERITED_ENV_VARS : list string :=
  [ "APPDATA"; "HOMEDRIVE"; "HOMEPATH"; "LOCALAPPDATA"; "PATH";
    "PROCESSOR_ARCHITECTURE"; "SYSTEMDRIVE"; "SYSTEMROOT"; "TEMP";
    "USERNAME"; "USERPROFILE"; "PROGRAMFILES" ].

Definition POSIX_INHERITED_ENV_VARS : list string :=
  [ "HOME"; "LOGNAME"; "PATH"; "SHELL"; "TERM"; "USER" ].

Definition platform_is (process : option process_t) (s : string) : bool :=
  match process with
  | None => false
  | Some p => String.eqb (platform p) s
  end.

Definition DEFAULT_INHERITED_ENV_VARS (process : option process_t) : list string :=
  if isNode process && platform_is process "win32"
  then WIN32_INHERITED_ENV_VARS
  else POSIX_INHERITED_ENV_VARS.

(** [globalThis.process.env], read only when [isNode] holds. *)
Definition processEnv (process : option process_t) : gmap string string :=
  match process with None => ∅ | Some p => env p end.

(** One turn of the [for (const key of DEFAULT_INHERITED_ENV_VARS)] loop. *)
Definition inherit_key (processEnv : gmap string string)
    (acc : gmap string string) (key : string) : gmap string string :=
  match processEnv !! key with
  | None => acc
  | Some value =>
      if startsWith value "()" then acc else <[key := value]> acc
  end.

Definition getDefaultEnvironment (process : option process_t) : gmap string string :=
  if negb (isNode process) then ∅
  else
    foldl (inherit_key (processEnv process)) ∅
      (DEFAULT_INHERITED_ENV_VARS process).

Record StdioServerParameters := {
  command : string;
  args : option (list string);
  params_env : option (gmap string string);
  stderr : option string;
  cwd : option string
}.

(** The handle [spawn] returns, as far as the transport reads it. *)
Record ChildProcess := { pid : option Z; has_stdin : bool }.

Record StdioClientTransport := {
  _process : option ChildProcess;
  _serverParams : StdioServerParameters;
  _aborted : bool;
  _readBuffer : string
}.

(** The arguments of the one call of [spawn] that [start] makes. *)
Record SpawnCall := {
  spawn_command : string;
  spawn_args : list string;
  spawn_env : gmap string string;
  spawn_stdio : list string;
  spawn_shell : bool;
  spawn_windowsHide : bool;
  spawn_cwd : option string
}.

Definition constructor (process : option process_t) (server : StdioServerParameters)
    : Error + StdioClientTransport :=
  if negb (isNode process)
  then inl (new_Error "StdioClientTransport is only available in Node.js environments. Use SSEClientTransport or WebSocketClientTransport for browsers and edge runtimes.")
  else inr {| _process := None; _serverParams := server;
              _aborted := false; _readBuffer := "" |}.

(** [{ ...getDefaultEnvironment(), ...this._serverParams.env }] *)
Definition merged_env (process : option process_t) (server : StdioServerParameters)
    : gmap string string :=
  default ∅ (params_env server) ∪ getDefaultEnvironment process.

Definition isElectron (process : option process_t) : bool :=
  match process with None => false | Some p => has_type p end.

(** [start()] up to and including the call of [spawn]; [cross_spawn] says
    whether the module of that name can be loaded, [child] is the handle
    [spawn] returns. *)
Definition start (process : option process_t) (cross_spawn : bool)
    (child : ChildProcess) (t : StdioClientTransport)
    : Error + (StdioClientTransport * SpawnCall) :=
  match _process t with
  | Some _ =>
      inl (new_Error "StdioClientTransport already started! If using Client class, note that connect() calls start() automatically.")
  | None =>
      if negb cross_spawn
      then inl (new_Error "cross-spawn is required for StdioClientTransport")
      else
        let p := _serverParams t in
        inr ({| _process := Some child; _serverParams := p;
                _aborted := _aborted t; _readBuffer := _readBuffer t |},
             {| spawn_command := command p;
                spawn_args := default [] (args p);
                spawn_env := merged_env process p;
                spawn_stdio := ["pipe"; "pipe"; default "inherit" (stderr p)];
                spawn_shell := false;
                spawn_windowsHide := platform_is process "win32" && isElectron process;
                spawn_cwd := cwd p |})
  end.

(** The environment the child is spawned with, [None] when [start] throws. *)
Definition child_env (process : option process_t) (cross_spawn : bool)
    (child : ChildProcess) (t : StdioClientTransport) : option (gmap string string) :=
  match start process cross_spawn child t with
  | inl _ => None
  | inr (_, call) => Some (spawn_env call)
  end.

Section WithPlatform.
Context `{Platform}.

(** The listener of the child's stdout for [data]: append the chunk, then
    drain the buffer. *)
Definition on_stdout_data (t : StdioClientTransport) (chunk : string)
    : option (StdioClientTransport * list callback) :=
  match ReadBuffer.processReadBuffer (ReadBuffer.append (_readBuffer t) chunk) with
  | Some (buffer, cbs) =>
      Some ({| _process := _process t; _serverParams := _serverParams t;
               _aborted := _aborted t; _readBuffer := buffer |}, cbs)
  | None => None
  end.

(** The listeners of the child for [error] and [close]. *)
Definition on_process_error (t : StdioClientTransport) (error : Error)
    : StdioClientTransport * list callback :=
  if String.eqb (name error) "AbortError" then (t, [OnClose])
  else (t, [OnError error]).

Definition on_process_close (t : StdioClientTransport)
    : StdioClientTransport * list callback :=
  ({| _process := None; _serverParams := _serverParams t;
      _aborted := _aborted t; _readBuffer := _readBuffer t |}, [OnClose]).

Definition close (t : StdioClientTransport) : StdioClientTransport * list callback :=
  ({| _process := None; _serverParams := _serverParams t;
      _aborted := true; _readBuffer := ReadBuffer.clear (_readBuffer t) |}, []).

(** The getter [pid]: [this._process?.pid ?? null]. *)
Definition get_pid (t : StdioClientTransport) : option Z :=
  match _process t with
  | Some child => pid child
  | None => None
  end.

(** [this._abortController.signal.aborted] at the moment [start()] hands the
    signal to [spawn]: the controller is made once, with the transport, and
    [close()] aborts it. *)
Definition spawn_signal_aborted (t : StdioClientTransport) : bool := _aborted t.

(** [send(message)]: it rejects when there is no child with a stdin pipe;
    otherwise it writes the serialized message, and [accepted] is what
    [stdin.write(json)] returns. *)
Definition send (t : StdioClientTransport) (message : JSONRPCMessage)
    (accepted : bool) : Error + string * StdioServer.resolution :=
  match _process t with
  | Some child =>
      if has_stdin child then
        inr (ReadBuffer.serializeMessage message,
             if accepted then StdioServer.AtOnce else StdioServer.OnDrain)
      else inl (new_Error "Not connected")
  | None => inl (new_Error "Not connected")
  end.

(** What happens to the transport: [start()] (with the runtime, whether
    cross-spawn loads, and the child that [spawn] returns), [close()], and
    the events of the child. *)
Inductive op :=
  | CallStart (process : option process_t) (cross_spawn : bool) (child : ChildProcess)
  | CallClose
  | StdoutData (chunk : string)
  | ProcessError (e : Error)
  | ProcessClose.

Definition step (t : StdioClientTransport) (o : op)
    : option (StdioClientTransport * list callback) :=
  match o with
  | CallStart process cross_spawn child =>
      match start process cross_spawn child t with
      | inl _ => Some (t, [])
      | inr (t', _) => Some (t', [])
      end
  | CallClose => Some (close t)
  | StdoutData chunk => on_stdout_data t chunk
  | ProcessError e => Some (on_process_error t e)
  | ProcessClose => Some (on_process_close t)
  end.

Fixpoint run (t : StdioClientTransport) (ops : list op)
    : option (StdioClientTransport * list callback) :=
  match ops with
  | [] => Some (t, [])
  | o :: rest =>
      match step t o with
      | None => None
      | Some (t', cbs) =>
          match run t' rest with
          | None => None
          | Some (t'', cbs') => Some (t'', (cbs ++ cbs')%list)
          end
      end
  end.

(** The bytes a run of [send] calls writes to the stdin of the child,
    [None] as soon as one of them rejects. *)
Fixpoint written (t : StdioClientTransport) (messages : list (JSONRPCMessage * bool))
    : option string :=
  match messages with
  | [] => Some ""
  | (message, accepted) :: rest =>
      match send t message accepted with
      | inl _ => None
      | inr (json, _) =>
          match written t rest with
          | Some bytes => Some (json ++ bytes)
          | None => None
          end
      end
  end.

End WithPlatform.

End StdioClient.

(** A header is accepted by an allow-list when it is present, not empty and
    a member of the list. *)
Definition accepted (allowed : list string) (header : option string) : Prop :=
  ∃ s : string, header = Some s ∧ s ≠ "" ∧ s ∈ allowed.

(** ** server/sse.ts *)

Module SSEServer.
Section WithPlatform.
Context `{Platform}.

Definition MAXIMUM_MESSAGE_SIZE : Z := 4 * 1024 * 1024.

(** [v.toString(16)] for [0 <= v < 16], the range of the values that
    [generateSessionId] prints. *)
Definition hex_digit (v : Z) : ascii :=
  match v with
  | 0 => "0" | 1 => "1" | 2 => "2" | 3 => "3" | 4 => "4" | 5 => "5"
  | 6 => "6" | 7 => "7" | 8 => "8" | 9 => "9" | 10 => "a" | 11 => "b"
  | 12 => "c" | 13 => "d" | 14 => "e" | _ => "f"
  end%Z%char.

(** [template.replace(/[xy]/g, c => ...)]: the [i]-th replaced character takes
    [random16 i], the value of [(Math.random() * 16) | 0] at the [i]-th call
    (an integer from 0 to 15). *)
Fixpoint replace_xy (random16 : nat → Z) (i : nat) (template : string) : string :=
  match template with
  | EmptyString => EmptyString
  | String c rest =>
      if Ascii.eqb c "x" then
        String (hex_digit (random16 i)) (replace_xy random16 (S i) rest)
      else if Ascii.eqb c "y" then
        String (hex_digit (Z.lor (Z.land (random16 i) 3) 8))
               (replace_xy random16 (S i) rest)
      else String c (replace_xy random16 i rest)
  end.

(** [randomUUID] is [Some u] when [globalThis.crypto.randomUUID] is a
    function, [u] being what the call returns. *)
Definition generateSessionId (randomUUID : option string) (random16 : nat → Z)
    : string :=
  match randomUUID with
  | Some u => u
  | None => replace_xy random16 0 "xxxxxxxx-xxxx-4xxx-yxxx-xxxxxxxxxxxx"
  end.

Record SSEServerTransportOptions := {
  allowedHosts : option (list string);
  allowedOrigins : option (list string);
  enableDnsRebindingProtection : option bool
}.

(** [_sseResponse] is [this.res] or undefined: the flag says which. [res_on]
    says whether [this.res] has an [on] method, [close_listeners] how many
    listeners for the [close] event of the response [start] has registered. *)
Record SSEServerTransport := {
  _endpoint : string;
  _sessionId : string;
  _options : SSEServerTransportOptions;
  _sseResponse : bool;
  res_on : bool;
  close_listeners : nat
}.

Definition set_sseResponse (b : bool) (t : SSEServerTransport) : SSEServerTransport :=
  {| _endpoint := _endpoint t; _sessionId := _sessionId t; _options := _options t;
     _sseResponse := b; res_on := res_on t; close_listeners := close_listeners t |}.

Definition set_close_listeners (n : nat) (t : SSEServerTransport) : SSEServerTransport :=
  {| _endpoint := _endpoint t; _sessionId := _sessionId t; _options := _options t;
     _sseResponse := _sseResponse t; res_on := res_on t; close_listeners := n |}.

Definition constructor (randomUUID : option string) (random16 : nat → Z)
    (endpoint : string) (res_has_on : bool)
    (options : option SSEServerTransportOptions) : SSEServerTransport :=
  {| _endpoint := endpoint;
     _sessionId := generateSessionId randomUUID random16;
     _options := default {| allowedHosts := None; allowedOrigins := None;
                            enableDnsRebindingProtection := Some false |} options;
     _sseResponse := false; res_on := res_has_on; close_listeners := 0 |}.

(** [validateRequestHeaders]: the error message, or [None] when the headers
    pass. *)
Definition validateRequestHeaders (t : SSEServerTransport) (headers : headers_t)
    : option string :=
  if negb (default false (enableDnsRebindingProtection (_options t))) then None
  else
    let host_error :=
      match allowedHosts (_options t) with
      | Some hosts =>
          if (0 <? Z.of_nat (List.length hosts))%Z then
            let hostHeader := getHeader headers "host" in
            if falsy hostHeader || negb (includes hosts hostHeader)
            then Some ("Invalid Host header: " ++ template_opt hostHeader)
            else None
          else None
      | None => None
      end in
    match host_error with
    | Some e => Some e
    | None =>
        match allowedOrigins (_options t) with
        | Some origins =>
            if (0 <? Z.of_nat (List.length origins))%Z then
              let originHeader := getHeader headers "origin" in
              if falsy originHeader
                 || negb (includes origins originHeader)
              then Some ("Invalid Origin header: " ++ template_opt originHeader)
              else None
            else None
        | None => None
        end
    end.

(** The effects of one method call: the transport afterwards, the writes on
    the event stream's response ([this.res]), the writes on the response of
    the POST being handled, the callbacks invoked, and how the call ends. *)
Record effects := {
  after : SSEServerTransport;
  sse_log : list res_event;
  post_log : list res_event;
  callbacks : list callback;
  ending : completion
}.

Definition dummyBase : string := "http://localhost".

Definition start (t : SSEServerTransport) : effects :=
  if _sseResponse t then
    {| after := t; sse_log := []; post_log := []; callbacks := [];
       ending := Threw (new_Error "SSEServerTransport already started! If using Server class, note that connect() calls start() automatically.") |}
  else
    let head := WriteHead 200 [("Content-Type", "text/event-stream");
                               ("Cache-Control", "no-cache, no-transform");
                               ("Connection", "keep-alive")] in
    match URL_new (_endpoint t) dummyBase with
    | None =>
        {| after := t; sse_log := [head]; post_log := []; callbacks := [];
           ending := Threw (named_Error "TypeError" "Invalid URL") |}
    | Some url =>
        let endpointUrl := searchParams_set url "sessionId" (_sessionId t) in
        let relativeUrlWithSession :=
          pathname endpointUrl ++ search endpointUrl ++ hash endpointUrl in
        {| after := set_close_listeners
                      (if res_on t then S (close_listeners t) else close_listeners t)
                      (set_sseResponse true t);
           sse_log := [head;
                       Write ("event: endpoint" ++ LF ++ "data: "
                              ++ relativeUrlWithSession ++ LF ++ LF)];
           post_log := []; callbacks := []; ending := Returned |}
    end.

(** A request: its headers, the principal attached to it, and its body as
    the code can read it. [text] is [Some r] when the request has a [text]
    method, [r] being how the promise it returns settles; [on] is [Some evs]
    when the request has an [on] method, [evs] being the events it emits. *)
Inductive node_event := Data (chunk : string) | EndEvent | ErrorEvent (e : Error).

Inductive body_value := BodyString (s : string) | BodyValue (v : JSONValue).

Record RequestLike := {
  headers : headers_t;
  auth : option AuthInfo;
  text : option (Error + string);
  on : option (list node_event)
}.

Definition length_of (s : string) : Z := Z.of_nat (String.length s).

(** The promise around the [data], [end] and [error] listeners: [None] while
    it has not settled, the chunks kept when it resolves, the error when it
    rejects. *)
Fixpoint read_node_body (events : list node_event) (totalLength : Z)
    (chunks : list string) : option (Error + list string) :=
  match events with
  | [] => None
  | Data chunk :: rest =>
      let totalLength := (totalLength + length_of chunk)%Z in
      if (MAXIMUM_MESSAGE_SIZE <? totalLength)%Z
      then Some (inl (new_Error "Request body too large"))
      else read_node_body rest totalLength (chunks ++ [chunk])%list
  | EndEvent :: _ => Some (inr chunks)
  | ErrorEvent e :: _ => Some (inl e)
  end.

(** The first [try] block of [handlePostMessage]: the body, the error caught,
    or [None] when the body never arrives. *)
Definition read_body (req : RequestLike) (parsedBody : option body_value)
    : option (Error + body_value) :=
  let contentTypeHeader := default "" (getHeader (headers req) "content-type") in
  match contentType_parse contentTypeHeader with
  | inl e => Some (inl e)
  | inr ct =>
      if negb (String.eqb (ct_type ct) "application/json")
      then Some (inl (new_Error ("Unsupported content-type: " ++ ct_type ct)))
      else
        match parsedBody with
        | Some body => Some (inr body)
        | None =>
            match text req with
            | Some (inl e) => Some (inl e)
            | Some (inr bodyText) =>
                if (MAXIMUM_MESSAGE_SIZE <? length_of bodyText)%Z
                then Some (inl (new_Error "Request body too large"))
                else Some (inr (BodyString bodyText))
            | None =>
                match on req with
                | Some events =>
                    match read_node_body events 0 [] with
                    | None => None
                    | Some (inl e) => Some (inl e)
                    | Some (inr chunks) =>
                        let encoding :=
                          default "utf-8" (ct_parameters ct !! "charset") in
                        Some (inr (BodyString
                                     (Buffer_toString encoding (String.concat "" chunks))))
                    end
                | None => Some (inl (new_Error "Unable to read request body"))
                end
            end
        end
  end.

(** [handleMessage]: the callbacks it invokes and how it ends. *)
Definition handleMessage (message : JSONValue) (extra : option MessageExtraInfo)
    : list callback * completion :=
  match JSONRPCMessageSchema_parse message with
  | inl error => ([OnError error], Threw error)
  | inr parsedMessage => ([OnMessage parsedMessage extra], Returned)
  end.

Definition plain_headers (h : headers_t) : gmap string header_value :=
  match h with
  | PlainHeaders h => h
  | FetchHeaders h => Single <$> h
  end.

Definition body_text (body : body_value) : string :=
  match body with
  | BodyString s => s
  | BodyValue v => JSON_String v
  end.

Definition no_effect (t : SSEServerTransport) (c : completion) : effects :=
  {| after := t; sse_log := []; post_log := []; callbacks := []; ending := c |}.

Definition respond (t : SSEServerTransport) (status : Z) (text : string)
    (cbs : list callback) (c : completion) : effects :=
  {| after := t; sse_log := [];
     post_log := [WriteHead status []; End (Some text)];
     callbacks := cbs; ending := c |}.

Definition handlePostMessage (t : SSEServerTransport) (req : RequestLike)
    (parsedBody : option body_value) : effects :=
  if negb (_sseResponse t) then
    let message := "SSE connection not established" in
    respond t 500 message [] (Threw (new_Error message))
  else
    match validateRequestHeaders t (headers req) with
    | Some validationError =>
        respond t 403 validationError [OnError (new_Error validationError)] Returned
    | None =>
        let extra := {| requestInfo := plain_headers (headers req);
                        authInfo := auth req |} in
        match read_body req parsedBody with
        | None => no_effect t Pending
        | Some (inl error) =>
            respond t 400 (String_of_Error error) [OnError error] Returned
        | Some (inr body) =>
            let invalid cbs :=
              respond t 400 ("Invalid message: " ++ body_text body) cbs Returned in
            let handle v :=
              match handleMessage v (Some extra) with
              | (cbs, Returned) => respond t 202 "Accepted" cbs Returned
              | (cbs, _) => invalid cbs
              end in
            match body with
            | BodyString s =>
                match JSON_parse s with
                | inl _ => invalid []
                | inr v => handle v
                end
            | BodyValue v => handle v
            end
        end
    end.

Definition close (t : SSEServerTransport) : effects :=
  {| after := set_sseResponse false t;
     sse_log := if _sseResponse t then [End None] else [];
     post_log := []; callbacks := [OnClose]; ending := Returned |}.

(** The [close] event of [this.res]: every listener that [start] has
    registered runs. *)
Definition on_res_close (t : SSEServerTransport) : effects :=
  match close_listeners t with
  | O => no_effect t Returned
  | S _ =>
      {| after := set_sseResponse false t; sse_log := []; post_log := [];
         callbacks := repeat OnClose (close_listeners t); ending := Returned |}
  end.

Definition send (t : SSEServerTransport) (message : JSONRPCMessage) : effects :=
  if negb (_sseResponse t) then no_effect t (Threw (new_Error "Not connected"))
  else
    {| after := t;
       sse_log := [Write ("event: message" ++ LF ++ "data: "
                          ++ JSON_stringify (message_value message) ++ LF ++ LF)];
       post_log := []; callbacks := []; ending := Returned |}.

(** What happens to a transport over its life, and the callbacks a sequence
    of such steps invokes. *)
Inductive op :=
  | CallStart
  | CallClose
  | ResponseClosed
  | CallSend (message : JSONRPCMessage)
  | CallHandlePostMessage (req : RequestLike) (parsedBody : option body_value).

Definition step (t : SSEServerTransport) (o : op) : effects :=
  match o with
  | CallStart => start t
  | CallClose => close t
  | ResponseClosed => on_res_close t
  | CallSend m => send t m
  | CallHandlePostMessage req parsedBody => handlePostMessage t req parsedBody
  end.

Fixpoint run (t : SSEServerTransport) (ops : list op) : SSEServerTransport * list callback :=
  match ops with
  | [] => (t, [])
  | o :: rest =>
      let e := step t o in
      let (t', cbs) := run (after e) rest in
      (t', (callbacks e ++ cbs)%list)
  end.

(** The bytes of the body a Node-style request delivers: the [data] chunks
    up to the first [end] or [error]. *)
Fixpoint received_size (events : list node_event) : Z :=
  match events with
  | Data chunk :: rest => (length_of chunk + received_size rest)%Z
  | _ => 0%Z
  end.

(** The size of the body of a request as the code counts it: the length of
    the string [req.text()] resolves with, or else the bytes of the chunks
    received. [None] when there is no body to measure. *)
Definition counted_size (req : RequestLike) : option Z :=
  match text req with
  | Some (inr bodyText) => Some (length_of bodyText)
  | Some (inl _) => None
  | None =>
      match on req with
      | Some events => Some (received_size events)
      | None => None
      end
  end.

(** The size of the body of a request in bytes: the bytes of the text that
    [req.text()] decodes, or else the bytes of the chunks received. *)
Definition body_bytes (req : RequestLike) : option Z :=
  match text req with
  | Some (inr bodyText) => Some (length_of (utf8_encode bodyText))
  | Some (inl _) => None
  | None =>
      match on req with
      | Some events => Some (received_size events)
      | None => None
      end
  end.


(** The status a call answered the POST with, [None] when it wrote nothing. *)
Definition answered (e : effects) : option Z :=
  match post_log e with
  | WriteHead status _ :: _ => Some status
  | _ => None
  end.

(** The getter [sessionId]. *)
Definition sessionId (t : SSEServerTransport) : string := _sessionId t.

(** A lower-case hexadecimal digit. *)
Definition is_hex (c : ascii) : bool :=
  let n := nat_of_ascii c in
  ((48 <=? n)%nat && (n <=? 57)%nat) || ((97 <=? n)%nat && (n <=? 102)%nat).

(** The characters of [s] from position [i] on have the shape of a version-4
    UUID: hyphens at 8, 13, 18 and 23, the digit 4 at 14, one of 8, 9, a, b
    at 19, hexadecimal digits elsewhere, and 36 characters in all. *)
Fixpoint uuid_v4_from (i : nat) (s : string) : bool :=
  match s with
  | EmptyString => (i =? 36)%nat
  | String c rest =>
      (if (i =? 8)%nat || (i =? 13)%nat || (i =? 18)%nat || (i =? 23)%nat
       then Ascii.eqb c "-"
       else if (i =? 14)%nat then Ascii.eqb c "4"
       else if (i =? 19)%nat
       then Ascii.eqb c "8" || Ascii.eqb c "9" || Ascii.eqb c "a" || Ascii.eqb c "b"
       else is_hex c)
      && uuid_v4_from (S i) rest
  end.

Definition uuid_v4_shape (s : string) : bool := uuid_v4_from 0 s.

End WithPlatform.
End SSEServer.

(** ** client/sse.ts *)

Module SSEClient.
Section WithPlatform.
Context `{Platform}.

(** An event of the event stream, as [eventsource-parser] hands it over. *)
Record EventSourceMessage := { event : option string; data : string }.

(** [_abortController] and [_reader] are objects or undefined: the flags say
    which. [_authProvider] says whether a provider was given. *)
Record SSEClientTransport := {
  _url : URL;
  _endpoint : option URL;
  _abortController : bool;
  _reader : bool;
  _resourceMetadataUrl : option URL;
  _authProvider : bool;
  _protocolVersion : option string;
  _didEmitClose : bool
}.

Definition set_endpoint (v : option URL) (t : SSEClientTransport) :=
  {| _url := _url t; _endpoint := v; _abortController := _abortController t;
     _reader := _reader t; _resourceMetadataUrl := _resourceMetadataUrl t;
     _authProvider := _authProvider t; _protocolVersion := _protocolVersion t;
     _didEmitClose := _didEmitClose t |}.

Definition set_abortController (v : bool) (t : SSEClientTransport) :=
  {| _url := _url t; _endpoint := _endpoint t; _abortController := v;
     _reader := _reader t; _resourceMetadataUrl := _resourceMetadataUrl t;
     _authProvider := _authProvider t; _protocolVersion := _protocolVersion t;
     _didEmitClose := _didEmitClose t |}.

Definition set_reader (v : bool) (t : SSEClientTransport) :=
  {| _url := _url t; _endpoint := _endpoint t; _abortController := _abortController t;
     _reader := v; _resourceMetadataUrl := _resourceMetadataUrl t;
     _authProvider := _authProvider t; _protocolVersion := _protocolVersion t;
     _didEmitClose := _didEmitClose t |}.

Definition set_resourceMetadataUrl (v : option URL) (t : SSEClientTransport) :=
  {| _url := _url t; _endpoint := _endpoint t; _abortController := _abortController t;
     _reader := _reader t; _resourceMetadataUrl := v;
     _authProvider := _authProvider t; _protocolVersion := _protocolVersion t;
     _didEmitClose := _didEmitClose t |}.

Definition set_didEmitClose (v : bool) (t : SSEClientTransport) :=
  {| _url := _url t; _endpoint := _endpoint t; _abortController := _abortController t;
     _reader := _reader t; _resourceMetadataUrl := _resourceMetadataUrl t;
     _authProvider := _authProvider t; _protocolVersion := _protocolVersion t;
     _didEmitClose := v |}.

Definition constructor (url : URL) (authProvider : bool) : SSEClientTransport :=
  {| _url := url; _endpoint := None; _abortController := false; _reader := false;
     _resourceMetadataUrl := None; _authProvider := authProvider;
     _protocolVersion := None; _didEmitClose := false |}.

(** What can be observed of the transport: how the promise of [start()]
    settles, the requests sent, the calls of [auth], and the callbacks. *)
Inductive observation :=
  | StartResolved
  | StartRejected (e : Error)
  | Fetched (method : string) (url : string) (body : option string)
  | AuthCalled
  | Callback (c : callback).

Definition _emitClose (t : SSEClientTransport)
    : SSEClientTransport * list observation :=
  if _didEmitClose t then (t, [])
  else (set_didEmitClose true t, [Callback OnClose]).

(** *** The open stream

    The promise that [_startStream] returns once it has a reader, with the
    variables of its closure: [resolved], the flag of the abort signal
    captured ([aborted]), whether the loop of [process] is still running
    ([reading]), and how many calls of [close()] wait for
    [this._reader.cancel()] ([closing]). *)
Record stream := {
  transport : SSEClientTransport;
  resolved : bool;
  aborted : bool;
  reading : bool;
  closing : nat
}.

Definition set_transport (t : SSEClientTransport) (m : stream) : stream :=
  {| transport := t; resolved := resolved m; aborted := aborted m;
     reading := reading m; closing := closing m |}.

(** How [reader.read()] settles. *)
Inductive read_result :=
  | ReadValue (value : option EventSourceMessage)
  | ReadDone
  | ReadThrows (e : Error).

(** The closure [finish]; it is always followed by the return of [process]. *)
Definition finish (m : stream) (error : option Error) (was_aborted : bool)
    : stream * list observation :=
  let t := set_abortController false (set_reader false (transport m)) in
  if negb (resolved m) then
    let reason :=
      match error with
      | Some e => e
      | None =>
          if was_aborted then new_Error "SSE connection aborted"
          else new_Error "SSE connection ended before receiving endpoint event"
      end in
    ({| transport := t; resolved := resolved m; aborted := aborted m;
        reading := false; closing := closing m |},
     [StartRejected reason])
  else
    match error with
    | Some e =>
        ({| transport := t; resolved := resolved m; aborted := aborted m;
            reading := false; closing := closing m |},
         [Callback (OnError e)])
    | None =>
        let (t', obs) := _emitClose t in
        ({| transport := t'; resolved := resolved m; aborted := aborted m;
            reading := false; closing := closing m |}, obs)
    end.

Definition resolveOnce (m : stream) : stream * list observation :=
  if negb (resolved m) then
    ({| transport := transport m; resolved := true; aborted := aborted m;
        reading := reading m; closing := closing m |}, [StartResolved])
  else (m, []).

(** [value.event ?? 'message'] *)
Definition eventName (value : EventSourceMessage) : string :=
  default "message" (event value).

(** [JSONRPCMessageSchema.parse(JSON.parse(value.data))] *)
Definition parse_data (data : string) : Error + JSONRPCMessage :=
  match JSON_parse data with
  | inl e => inl e
  | inr v => JSONRPCMessageSchema_parse v
  end.

(** One turn of the loop of [process], from the moment [reader.read()]
    settles. *)
Definition process_read (m : stream) (r : read_result) : stream * list observation :=
  match r with
  | ReadDone => finish m None (aborted m)
  | ReadValue None => (m, [])
  | ReadValue (Some value) =>
      if String.eqb (eventName value) "endpoint" then
        match URL_new (data value) (href (_url (transport m))) with
        | None => finish m (Some (named_Error "TypeError" "Invalid URL")) false
        | Some endpoint =>
            let m := set_transport (set_endpoint (Some endpoint) (transport m)) m in
            if negb (String.eqb (origin endpoint) (origin (_url (transport m))))
            then finish m
                   (Some (new_Error ("Endpoint origin does not match connection origin: "
                                     ++ origin endpoint)))
                   false
            else resolveOnce m
        end
      else if negb (resolved m) then (m, [])
      else
        match parse_data (data value) with
        | inr message => (m, [Callback (OnMessage message None)])
        | inl error => (m, [Callback (OnError error)])
        end
  | ReadThrows error =>
      if String.eqb (name error) "AbortError" || aborted m
      then finish m None true
      else finish m (Some error) false
  end.

(** [close()] up to its [await]: with no reader it runs to its end. *)
Definition close_begin (m : stream) : stream * list observation :=
  let was_set := _abortController (transport m) in
  let t := set_abortController false (transport m) in
  let is_aborted := was_set || aborted m in
  if _reader t then
    ({| transport := t; resolved := resolved m; aborted := is_aborted;
        reading := reading m; closing := S (closing m) |}, [])
  else
    let (t', obs) := _emitClose t in
    ({| transport := t'; resolved := resolved m; aborted := is_aborted;
        reading := reading m; closing := closing m |}, obs).

(** [close()] after [await this._reader.cancel()], whether that resolved or
    threw. *)
Definition close_end (m : stream) : stream * list observation :=
  match closing m with
  | O => (m, [])
  | S n =>
      let (t', obs) := _emitClose (set_reader false (transport m)) in
      ({| transport := t'; resolved := resolved m; aborted := aborted m;
          reading := reading m; closing := n |}, obs)
  end.

(** What happens to an open stream: a read settles, [close()] is called, or
    the [cancel()] that a [close()] waits for settles. *)
Inductive stream_op :=
  | ReadSettles (r : read_result)
  | CloseCalled
  | CancelSettles.

Definition stream_step (m : stream) (o : stream_op) : stream * list observation :=
  match o with
  | ReadSettles r => if reading m then process_read m r else (m, [])
  | CloseCalled => close_begin m
  | CancelSettles => close_end m
  end.

Fixpoint stream_run (m : stream) (ops : list stream_op) : stream * list observation :=
  match ops with
  | [] => (m, [])
  | o :: rest =>
      let (m', obs) := stream_step m o in
      let (m'', obs') := stream_run m' rest in
      (m'', (obs ++ obs')%list)
  end.

(** *** Connecting *)

(** The response of [fetch], as far as the transport reads it:
    [www_authenticate] says whether that header is present,
    [resource_metadata] is what [extractResourceMetadataUrl] returns for the
    response, [has_body] whether [response.body] is set, and [response_text]
    what [response.text()] resolves with ([None] when it rejects). *)
Record Response := {
  status : Z;
  www_authenticate : bool;
  resource_metadata : option URL;
  has_body : bool;
  response_text : option string
}.

(** [response.ok] *)
Definition ok (r : Response) : bool := (200 <=? status r)%Z && (status r <=? 299)%Z.

Inductive fetch_outcome := FetchThrows (e : Error) | FetchReturns (r : Response).

Inductive AuthResult := AUTHORIZED | REDIRECT.

Inductive auth_outcome := AuthThrows (e : Error) | AuthReturns (r : AuthResult).

Inductive connect_end := Connected | ConnectFailed (e : Error) | ConnectPending.

(** [new SseError(code, message, event)] *)
Definition SseError (code : Z) (message : option string) : Error :=
  mkError "Error" ("SSE error: " ++ template_opt message) (Some code).

(** [_startStream] up to the promise around the reader, with [_authThenStart]
    and [_startOrAuth], which lead back to it. [fetches] and [auths] are how
    the calls of [fetch] and of [auth] end, in order; a call past the end of
    its list never settles. *)
Fixpoint _startStream (t : SSEClientTransport) (fetches : list fetch_outcome)
    (auths : list auth_outcome)
    : SSEClientTransport * list observation * connect_end :=
  let t := set_abortController true (set_endpoint None (set_didEmitClose false t)) in
  let get := Fetched "GET" (href (_url t)) None in
  match fetches with
  | [] => (t, [get], ConnectPending)
  | FetchThrows error :: _ =>
      (set_abortController false t, [get; Callback (OnError error)], ConnectFailed error)
  | FetchReturns response :: fetches' =>
      let t :=
        if (status response =? 401)%Z && www_authenticate response
        then set_resourceMetadataUrl (resource_metadata response) t else t in
      if (status response =? 401)%Z then
        let t := set_abortController false t in
        if _authProvider t then
          match auths with
          | [] => (t, [get; AuthCalled], ConnectPending)
          | AuthThrows error :: _ =>
              (t, [get; AuthCalled; Callback (OnError error)], ConnectFailed error)
          | AuthReturns AUTHORIZED :: auths' =>
              let '(t', obs, e) := _startStream t fetches' auths' in
              (t', (get :: AuthCalled :: obs)%list, e)
          | AuthReturns _ :: _ =>
              (t, [get; AuthCalled], ConnectFailed (UnauthorizedError None))
          end
        else
          let error := UnauthorizedError None in
          (t, [get; Callback (OnError error)], ConnectFailed error)
      else if negb (ok response) then
        let error := SseError (status response) (response_text response) in
        (set_abortController false t, [get; Callback (OnError error)], ConnectFailed error)
      else if negb (has_body response) then
        let error := new_Error "SSE response did not include a body" in
        (set_abortController false t, [get; Callback (OnError error)], ConnectFailed error)
      else (set_reader true t, [get], Connected)
  end.

Definition idle (t : SSEClientTransport) : stream :=
  {| transport := t; resolved := false; aborted := false; reading := false;
     closing := 0 |}.

(** The stream right after [_startStream] has taken its reader. *)
Definition opened (t : SSEClientTransport) : stream :=
  {| transport := t; resolved := false; aborted := false; reading := true;
     closing := 0 |}.

(** [start()], followed by what happens to the stream it opens. *)
Definition start (t : SSEClientTransport) (fetches : list fetch_outcome)
    (auths : list auth_outcome) (ops : list stream_op) : stream * list observation :=
  if _abortController t || _reader t then
    (idle t,
     [StartRejected (new_Error "SSEClientTransport already started! If using Client class, note that connect() calls start() automatically.")])
  else
    match _startStream t fetches auths with
    | (t', obs, Connected) =>
        let (m, obs') := stream_run (opened t') ops in (m, (obs ++ obs')%list)
    | (t', obs, ConnectFailed e) => (idle t', (obs ++ [StartRejected e])%list)
    | (t', obs, ConnectPending) => (idle t', obs)
    end.

(** *** Sending *)

(** [send(message)]: the transport afterwards, what is observed, and how the
    promise settles. [fetches] and [auths] are as for [_startStream];
    [_commonHeaders] is taken to return. *)
Fixpoint send (t : SSEClientTransport) (message : JSONRPCMessage)
    (fetches : list fetch_outcome) (auths : list auth_outcome)
    : SSEClientTransport * list observation * completion :=
  match _endpoint t with
  | None => (t, [], Threw (new_Error "Not connected"))
  | Some endpoint =>
      let post :=
        Fetched "POST" (href endpoint) (Some (JSON_stringify (message_value message))) in
      match fetches with
      | [] => (t, [post], Pending)
      | FetchThrows error :: _ => (t, [post; Callback (OnError error)], Threw error)
      | FetchReturns response :: fetches' =>
          if ok response then (t, [post], Returned)
          else if (status response =? 401)%Z && _authProvider t then
            let t := set_resourceMetadataUrl (resource_metadata response) t in
            match auths with
            | [] => (t, [post; AuthCalled], Pending)
            | AuthThrows error :: _ =>
                (t, [post; AuthCalled; Callback (OnError error)], Threw error)
            | AuthReturns AUTHORIZED :: auths' =>
                let '(t', obs, c) := send t message fetches' auths' in
                (t', (post :: AuthCalled :: obs)%list, c)
            | AuthReturns _ :: _ =>
                let error := UnauthorizedError None in
                (t, [post; AuthCalled; Callback (OnError error)], Threw error)
            end
          else
            let error :=
              new_Error ("Error POSTing to endpoint (HTTP " ++ pretty (status response)
                         ++ "): " ++ default "null" (response_text response)) in
            (t, [post; Callback (OnError error)], Threw error)
      end
  end.

Definition is_close (o : observation) : bool :=
  match o with Callback OnClose => true | _ => false end.

Definition is_auth (o : observation) : bool :=
  match o with AuthCalled => true | _ => false end.

Definition is_post (o : observation) : bool :=
  match o with Fetched "POST" _ _ => true | _ => false end.

Definition is_error (o : observation) : bool :=
  match o with Callback (OnError _) => true | _ => false end.

(** A read that brings no endpoint event. *)
Definition other_read (o : stream_op) : bool :=
  match o with
  | ReadSettles (ReadValue None) => true
  | ReadSettles (ReadValue (Some value)) => negb (String.eqb (eventName value) "endpoint")
  | _ => false
  end.

(** How many more times [onclose] can be invoked. *)
Definition close_budget (t : SSEClientTransport) : nat :=
  if _didEmitClose t then 0 else 1.

Definition closes (obs : list observation) : nat := List.length (filter is_close obs).

(** An observation that is neither the resolution of [start()], nor
    [onclose], nor [onmessage]. *)
Definition quiet (o : observation) : bool :=
  match o with
  | StartResolved => false
  | Callback OnClose => false
  | Callback (OnMessage _ _) => false
  | _ => true
  end.

Definition is_resolution (o : observation) : bool :=
  match o with StartResolved => true | _ => false end.

(** No [onmessage] comes before the resolution of [start()]: [r] says
    whether the resolution has been seen already. *)
Fixpoint messages_follow_resolution (r : bool) (obs : list observation) : bool :=
  match obs with
  | [] => true
  | StartResolved :: rest => messages_follow_resolution true rest
  | Callback (OnMessage _ _) :: rest => r && messages_follow_resolution r rest
  | _ :: rest => messages_follow_resolution r rest
  end.

(** How many observations satisfy [f]. *)
Definition count (f : observation → bool) (obs : list observation) : nat :=
  List.length (List.filter f obs).

Definition is_read (o : stream_op) : bool :=
  match o with ReadSettles _ => true | _ => false end.

Definition is_get (o : observation) : bool :=
  match o with Fetched "GET" _ _ => true | _ => false end.

(** What the loop of [process] does with the data of an event that is not an
    endpoint event, once [start()] has resolved. *)
Definition deliver_data (value : EventSourceMessage) : observation :=
  match parse_data (data value) with
  | inr message => Callback (OnMessage message None)
  | inl error => Callback (OnError error)
  end.

Definition is_close_call (o : stream_op) : bool :=
  match o with CloseCalled => true | _ => false end.

(** A read that brings an endpoint event. *)
Definition endpoint_read (o : stream_op) : bool :=
  match o with
  | ReadSettles (ReadValue (Some value)) => String.eqb (eventName value) "endpoint"
  | _ => false
  end.

(** The promise of [start()] settles. *)
Definition is_settlement (o : observation) : bool :=
  match o with StartResolved | StartRejected _ => true | _ => false end.

(** [start()] is not refused: neither an abort controller nor a reader is
    set. *)
Definition startable (t : SSEClientTransport) : bool :=
  negb (_abortController t || _reader t).

End WithPlatform.
End SSEClient.

(** * Concrete inputs

    Runtimes, parameters and a small platform on which the definitions are
    run in the examples below. *)

Section ConcreteStdioClient.
Import StdioClient.

Definition posix_process : option StdioClient.process_t :=
  Some {| versions := Some {| node := Some "20.11.0" |};
          platform := "linux";
          env := <["PATH" := "/usr/bin"]>
                   (<["HOME" := "() { echo inherited; }"]>
                      (<["SECRET" := "hunter2"]> ∅));
          has_type := false |}.

Definition pwned_params : StdioServerParameters :=
  {| command := "server"; args := None;
     params_env := Some (<["FOO" := "() { echo pwned; }"]> ∅);
     stderr := None; cwd := None |}.

Definition a_child : ChildProcess := {| pid := Some 4242%Z; has_stdin := true |}.

Definition pwned_transport : StdioClientTransport :=
  {| _process := None; _serverParams := pwned_params;
     _aborted := false; _readBuffer := "" |}.

End ConcreteStdioClient.

(** A small platform. URLs are an origin followed by a path, a query and a
    fragment; [Toy.URL_new] accepts an input that starts with "/" (taken
    relative to the origin of the base) or with "http" (taken as an absolute
    URL), and throws on anything else. JSON values and messages are kept as
    their text: a text that starts with "{" parses, and is a message when it
    starts with "{jsonrpc". *)
Module Toy.

Record url := { u_origin : string; u_pathname : string; u_search : string; u_hash : string }.

(** The part of [s] before the first occurrence of [c], and the rest from
    [c] on. *)
Fixpoint break_at (c : ascii) (s : string) : string * string :=
  match s with
  | EmptyString => (EmptyString, EmptyString)
  | String a rest =>
      if Ascii.eqb a c then (EmptyString, s)
      else let (l, r) := break_at c rest in (String a l, r)
  end.

(** The origin of an absolute URL: scheme, "//" and host. *)
Definition origin_of (s : string) : string :=
  let (scheme, r1) := break_at "/" s in
  match r1 with
  | String "/" (String "/" r2) => scheme ++ "//" ++ fst (break_at "/" r2)
  | _ => s
  end.

Definition parse_path (o p : string) : url :=
  let (before_hash, h) := break_at "#" p in
  let (path, q) := break_at "?" before_hash in
  {| u_origin := o; u_pathname := if String.eqb path "" then "/" else path;
     u_search := q; u_hash := h |}.

Definition URL_new (input base : string) : option url :=
  if startsWith input "/" then Some (parse_path (origin_of base) input)
  else if startsWith input "http" then
    let o := origin_of input in
    Some (parse_path o
            (String.substring (String.length o)
               (String.length input - String.length o) input))
  else None.

Definition searchParams_set (u : url) (k v : string) : url :=
  {| u_origin := u_origin u; u_pathname := u_pathname u;
     u_search := (if String.eqb (u_search u) "" then "?" else u_search u ++ "&")
                 ++ k ++ "=" ++ v;
     u_hash := u_hash u |}.

Definition JSON_parse (s : string) : Error + string :=
  if startsWith s "{" then inr s
  else inl (named_Error "SyntaxError" "Unexpected token").

Definition schema_parse (v : string) : Error + string :=
  if startsWith v "{jsonrpc" then inr v
  else inl (named_Error "ZodError" "Invalid input").

Definition contentType_parse (h : string) : Error + ContentType :=
  if String.eqb h "" then inl (named_Error "TypeError" "invalid media type")
  else inr {| ct_type := toLowerCase h; ct_parameters := ∅ |}.

End Toy.

#[local] Instance toy_platform : Platform := {|
  URL := Toy.url;
  URL_new := Toy.URL_new;
  href u := Toy.u_origin u ++ Toy.u_pathname u ++ Toy.u_search u ++ Toy.u_hash u;
  origin := Toy.u_origin;
  pathname := Toy.u_pathname;
  search := Toy.u_search;
  hash := Toy.u_hash;
  searchParams_set := Toy.searchParams_set;
  JSONValue := string;
  JSON_parse := Toy.JSON_parse;
  JSON_stringify v := v;
  JSON_String v := v;
  JSONRPCMessage := string;
  JSONRPCMessageSchema_parse := Toy.schema_parse;
  message_value m := m;
  contentType_parse := Toy.contentType_parse;
  Buffer_toString _ bytes := bytes;
  AuthInfo := string;
  UnauthorizedError msg := named_Error "UnauthorizedError" (default "Unauthorized" msg)
|}.

Section ConcreteStdio.

Definition listening_server : StdioServer.StdioServerTransport :=
  {| StdioServer._readBuffer := ""; StdioServer._started := true;
     StdioServer._stdin := {| StdioServer.own_listeners := true;
                              StdioServer.other_data_listeners := 0;
                              StdioServer.paused := false |} |}.

Definition running_client : StdioClient.StdioClientTransport :=
  {| StdioClient._process := Some a_child;
     StdioClient._serverParams := pwned_params;
     StdioClient._aborted := false; StdioClient._readBuffer := "" |}.

Definition malformed_line : string := "not json".

Definition valid_line : string := "{jsonrpc:2.0,method:ping}".

End ConcreteStdio.

Section ConcreteSSEServer.
Import SSEServer.

Definition lenient_options : SSEServerTransportOptions :=
  {| allowedHosts := None; allowedOrigins := None;
     enableDnsRebindingProtection := None |}.

(** Only an origin allow-list, as in the specification's example. *)
Definition origin_options : SSEServerTransportOptions :=
  {| allowedHosts := None; allowedOrigins := Some ["https://a"];
     enableDnsRebindingProtection := Some true |}.



Definition fresh_server (options : SSEServerTransportOptions) : SSEServerTransport :=
  constructor (Some "3f0c1d5e-8a4b-4c2d-9e6f-0a1b2c3d4e5f") (λ _, 0%Z)
    "/messages" true (Some options).

Definition open_server (options : SSEServerTransportOptions) : SSEServerTransport :=
  after (start (fresh_server options)).

Definition json_post (host origin : string) (body : string) : RequestLike :=
  {| headers := PlainHeaders
                  (<["host" := Single host]>
                     (<["origin" := Single origin]>
                        (<["content-type" := Single "application/json"]> ∅)));
     auth := None;
     text := Some (inr body);
     on := None |}.

Definition ping : string := "{jsonrpc:2.0,method:ping}".

(** A body of 4 MiB and one byte. *)
Definition big_body : string :=
  string_of_list_ascii (repeat "a"%char (Z.to_nat (MAXIMUM_MESSAGE_SIZE + 1))).

(** A message of 2,200,033 characters, 2,200,000 of which are U+00E9: in
    UTF-8 it takes 4,400,033 bytes. *)
Definition padding (n : nat) : string :=
  string_of_list_ascii (repeat (ascii_of_nat 233) n).

Definition multibyte_body : string :=
  "{jsonrpc:2.0,method:ping,params:" ++ padding (Z.to_nat 2200000) ++ "}".

Definition node_post (chunks : list string) : RequestLike :=
  {| headers := PlainHeaders (<["content-type" := Single "application/json"]> ∅);
     auth := None;
     text := None;
     on := Some ((Data <$> chunks) ++ [EndEvent])%list |}.

End ConcreteSSEServer.

Section ConcreteSSEClient.
Import SSEClient.

Definition sse_url : Toy.url :=
  {| Toy.u_origin := "http://localhost:3000"; Toy.u_pathname := "/sse";
     Toy.u_search := ""; Toy.u_hash := "" |}.

Definition fresh_client : SSEClientTransport := constructor sse_url true.

Definition response_of (code : Z) : Response :=
  {| status := code; www_authenticate := false; resource_metadata := None;
     has_body := true; response_text := Some "" |}.

Definition endpoint_event (target : string) : stream_op :=
  ReadSettles (ReadValue (Some {| event := Some "endpoint"; data := target |})).

Definition message_event (text : string) : stream_op :=
  ReadSettles (ReadValue (Some {| event := None; data := text |})).

(** A client whose stream is open and whose endpoint is known. *)
Definition connected_client : SSEClientTransport :=
  transport
    (fst (start fresh_client [FetchReturns (response_of 200)] []
            [endpoint_event "/messages?sessionId=1"])).

(** A client whose stream has ended after it brought the endpoint. *)
Definition ended_client : SSEClientTransport :=
  transport
    (fst (start fresh_client [FetchReturns (response_of 200)] []
            [endpoint_event "/messages?sessionId=1"; ReadSettles ReadDone])).

(** An endpoint on another host. *)
Definition foreign_endpoint : Toy.url :=
  {| Toy.u_origin := "http://evil.example"; Toy.u_pathname := "/collect";
     Toy.u_search := ""; Toy.u_hash := "" |}.

End ConcreteSSEClient.

(** * Properties *)

(** ** client/stdio.ts *)

Section StdioClientEnv.
Import StdioClient.

(** One turn of the loop, read at key [k]. *)
Lemma lookup_inherit_key (penv acc : gmap string string) (x k : string) :
  inherit_key penv acc x !! k =
    if decide (k = x) then
      match penv !! k with
      | Some v => if startsWith v "()" then acc !! k else Some v
      | None => acc !! k
      end
    else acc !! k.
Proof.
  unfold inherit_key. case_decide as Hk.
  - subst k. destruct (penv !! x) as [v|]; [|done].
    destruct (startsWith v "()"); [done|]. by rewrite lookup_insert_eq.
  - destruct (penv !! x) as [v|]; [|done].
    destruct (startsWith v "()"); [done|]. by rewrite lookup_insert_ne.
Qed.

(** The loop of [getDefaultEnvironment], key by key: a listed key takes the
    parent's value unless that is missing or starts with "()". *)
Lemma lookup_foldl_inherit_key (penv : gmap string string) (keys : list string) :
  ∀ (acc : gmap string string) (k : string),
    foldl (inherit_key penv) acc keys !! k =
      if decide (k ∈ keys) then
        match penv !! k with
        | Some v => if startsWith v "()" then acc !! k else Some v
        | None => acc !! k
        end
      else acc !! k.
Proof.
  induction keys as [|x keys IH]; intros acc k; cbn [foldl].
  - case_decide as Hin; [by apply elem_of_nil in Hin|done].
  - rewrite IH, lookup_inherit_key.
    destruct (decide (k ∈ keys)) as [Hin|Hnin];
      destruct (decide (k = x)) as [->|Hne].
    + rewrite decide_True by apply list_elem_of_here.
      destruct (penv !! x) as [v|]; [|done]. by destruct (startsWith v "()").
    + rewrite decide_True by (by apply list_elem_of_further). done.
    + rewrite decide_True by apply list_elem_of_here. done.
    + rewrite decide_False; [done|].
      intros [?|?]%elem_of_cons; contradiction.
Qed.

(** What [getDefaultEnvironment] holds at a key, in every runtime. *)
Lemma lookup_getDefaultEnvironment (process : option process_t) (k v : string) :
  getDefaultEnvironment process !! k = Some v ↔
    isNode process = true ∧
    k ∈ DEFAULT_INHERITED_ENV_VARS process ∧
    processEnv process !! k = Some v ∧
    startsWith v "()" = false.
Proof.
  unfold getDefaultEnvironment.
  destruct (isNode process) eqn:Hnode; cbn [negb].
  - rewrite lookup_foldl_inherit_key, lookup_empty.
    case_decide as Hin.
    + destruct (processEnv process !! k) as [w|] eqn:Hk.
      * destruct (startsWith w "()") eqn:Hs.
        -- split; [done|]. intros (_ & _ & [= ->] & Hv). congruence.
        -- split.
           ++ intros [= ->]. done.
           ++ intros (_ & _ & [= ->] & _). done.
      * split; [done|]. intros (_ & _ & ? & _). done.
    + split; [done|]. intros (_ & ? & _). done.
  - rewrite lookup_empty. split; [done|]. intros [? _]. done.
Qed.

Lemma getDefaultEnvironment_not_node (process : option process_t) :
  isNode process = false → getDefaultEnvironment process = ∅.
Proof. intros H. unfold getDefaultEnvironment. by rewrite H. Qed.

Example getDefaultEnvironment_posix_PATH :
  getDefaultEnvironment posix_process !! "PATH" = Some "/usr/bin".
Proof. reflexivity. Qed.

Example getDefaultEnvironment_posix_HOME :
  getDefaultEnvironment posix_process !! "HOME" = None.
Proof. reflexivity. Qed.

Example getDefaultEnvironment_posix_SECRET :
  getDefaultEnvironment posix_process !! "SECRET" = None.
Proof. reflexivity. Qed.

(** C8. In a Node.js runtime (the only one in which the stdio client
    transport can be constructed) [getDefaultEnvironment()] holds exactly the
    variables that are named in [DEFAULT_INHERITED_ENV_VARS], are defined in
    the parent's [process.env] and whose value does not start with "()"; each
    one with the parent's value. In particular every inherited value that
    starts with "()" is dropped. *)
Theorem getDefaultEnvironment_exact (process : option process_t) :
  isNode process = true →
  ∀ k v : string,
    getDefaultEnvironment process !! k = Some v ↔
      k ∈ DEFAULT_INHERITED_ENV_VARS process ∧
      processEnv process !! k = Some v ∧
      startsWith v "()" = false.
Proof.
  intros Hnode k v. rewrite lookup_getDefaultEnvironment. split.
  - intros (_ & H). exact H.
  - intros H. split; [exact Hnode | exact H].
Qed.

Lemma getDefaultEnvironment_exact_witness :
  getDefaultEnvironment posix_process !! "PATH" = Some "/usr/bin" ↔
    "PATH" ∈ DEFAULT_INHERITED_ENV_VARS posix_process ∧
    processEnv posix_process !! "PATH" = Some "/usr/bin" ∧
    startsWith "/usr/bin" "()" = false.
Proof.
  apply (getDefaultEnvironment_exact posix_process). reflexivity.
Defined.

(** C1, as the code has it. [start()] spawns the child with the caller's
    overrides laid over [getDefaultEnvironment()]: every override reaches the
    child unchanged, whatever its value, and a value of the child's
    environment that starts with "()" is one the caller supplied (no such
    value is inherited from the parent). *)
Theorem child_env_overrides_forwarded (process : option process_t)
    (cross_spawn : bool) (child : ChildProcess) (t : StdioClientTransport)
    (cenv : gmap string string) :
  child_env process cross_spawn child t = Some cenv →
  (∀ k v : string,
     default ∅ (params_env (_serverParams t)) !! k = Some v → cenv !! k = Some v) ∧
  (∀ k v : string,
     cenv !! k = Some v → startsWith v "()" = true →
     default ∅ (params_env (_serverParams t)) !! k = Some v).
Proof.
  unfold child_env, start.
  destruct (_process t); [done|].
  destruct cross_spawn; cbn [negb]; [|done].
  intros [= <-]. cbn [spawn_env]. unfold merged_env. split.
  - intros k v Hk. by apply lookup_union_Some_l.
  - intros k v Hk Hs. apply lookup_union_Some_raw in Hk as [Hk|[_ Hk]]; [done|].
    apply lookup_getDefaultEnvironment in Hk as (_ & _ & _ & Hv). congruence.
Qed.

Lemma child_env_overrides_forwarded_witness :
  (∀ k v : string,
     default ∅ (params_env (_serverParams pwned_transport)) !! k = Some v →
     merged_env posix_process pwned_params !! k = Some v) ∧
  (∀ k v : string,
     merged_env posix_process pwned_params !! k = Some v →
     startsWith v "()" = true →
     default ∅ (params_env (_serverParams pwned_transport)) !! k = Some v).
Proof.
  apply (child_env_overrides_forwarded posix_process true a_child pwned_transport).
  reflexivity.
Defined.

(** C1, as the specification words it, fails: the override
    [FOO = "() { echo pwned; }"] is in the environment of the spawned child
    (and the parent's [HOME], a function definition, is not). *)
Lemma override_function_value_reaches_child :
  ∃ cenv : gmap string string,
    child_env posix_process true a_child pwned_transport = Some cenv ∧
    cenv !! "FOO" = Some "() { echo pwned; }" ∧
    cenv !! "HOME" = None.
Proof. eexists. split; [reflexivity|]. split; reflexivity. Qed.

End StdioClientEnv.

(** ** server/sse.ts *)

Section SSEServerProperties.
Import SSEServer.
Context `{Platform}.






Lemma length_of_nonneg (s : string) : (0 ≤ length_of s)%Z.
Proof. unfold length_of. lia. Qed.

Lemma received_size_nonneg (events : list node_event) : (0 ≤ received_size events)%Z.
Proof.
  induction events as [|[chunk| |e] rest IH]; cbn [received_size]; try lia.
  pose proof (length_of_nonneg chunk). lia.
Qed.

(** The running total of the [data] listener crosses the bound as soon as
    the chunks received add up to more than it. *)
Lemma read_node_body_too_large (events : list node_event) :
  ∀ (totalLength : Z) (chunks : list string),
    (totalLength ≤ MAXIMUM_MESSAGE_SIZE)%Z →
    (MAXIMUM_MESSAGE_SIZE < totalLength + received_size events)%Z →
    read_node_body events totalLength chunks
      = Some (inl (new_Error "Request body too large")).
Proof.
  induction events as [|[chunk| |e] rest IH]; intros total chunks Hle Hgt;
    cbn [received_size] in Hgt; try lia.
  cbn [read_node_body].
  destruct (Z.ltb_spec MAXIMUM_MESSAGE_SIZE (total + length_of chunk)) as [Hc|Hc].
  - reflexivity.
  - apply IH; lia.
Qed.

(** What the bound of [handlePostMessage] does ensure. With the event stream
    open and the headers accepted, a POST without a pre-parsed body whose
    size, as the code counts it, is larger than [MAXIMUM_MESSAGE_SIZE] is
    answered 400; [onerror] is the only callback invoked, so the message does
    not reach [onmessage]; and when the content type is application/json the
    error is "Request body too large". *)
Lemma handlePostMessage_counted_too_large (t : SSEServerTransport)
    (req : RequestLike) (size : Z) :
  _sseResponse t = true →
  validateRequestHeaders t (headers req) = None →
  counted_size req = Some size →
  (MAXIMUM_MESSAGE_SIZE < size)%Z →
  ∃ error : Error,
    handlePostMessage t req None =
      {| after := t; sse_log := [];
         post_log := [WriteHead 400 []; End (Some (String_of_Error error))];
         callbacks := [OnError error];
         ending := Returned |} ∧
    (∀ (m : JSONRPCMessage) (extra : option MessageExtraInfo),
       OnMessage m extra ∉ callbacks (handlePostMessage t req None)) ∧
    (∀ ct : ContentType,
       contentType_parse (default "" (getHeader (headers req) "content-type")) = inr ct →
       ct_type ct = "application/json" →
       error = new_Error "Request body too large").
Proof.
  intros Hopen Hv Hsize Hgt.
  assert (Hbody : ∃ error : Error,
             read_body req None = Some (inl error) ∧
             ∀ ct : ContentType,
               contentType_parse (default "" (getHeader (headers req) "content-type"))
                 = inr ct →
               ct_type ct = "application/json" →
               error = new_Error "Request body too large").
  { unfold read_body.
    destruct (contentType_parse _) as [e|ct] eqn:Hct.
    { exists e. split; [reflexivity|]. intros ct [=]. }
    destruct (String.eqb_spec (ct_type ct) "application/json") as [Hty|Hty]; cbn [negb].
    2:{ eexists. split; [reflexivity|]. intros ct' [= <-] ?. done. }
    exists (new_Error "Request body too large"). split; [|done].
    unfold counted_size in Hsize.
    destruct (text req) as [[e|bodyText]|].
    - done.
    - injection Hsize as <-.
      by rewrite (proj2 (Z.ltb_lt _ _) Hgt).
    - destruct (on req) as [events|]; [|done]. injection Hsize as <-.
      rewrite read_node_body_too_large; [reflexivity| |lia].
      unfold MAXIMUM_MESSAGE_SIZE. lia. }
  destruct Hbody as (error & Hbody & Hmsg).
  assert (Heq : handlePostMessage t req None =
      {| after := t; sse_log := [];
         post_log := [WriteHead 400 []; End (Some (String_of_Error error))];
         callbacks := [OnError error];
         ending := Returned |}).
  { unfold handlePostMessage. rewrite Hopen, Hv, Hbody. reflexivity. }
  exists error. split; [exact Heq|]. split; [|exact Hmsg].
  intros m extra. rewrite Heq. cbn [callbacks].
  intros Hin. apply list_elem_of_singleton in Hin. discriminate.
Qed.

(** A Fetch-style POST whose text is not longer than the bound, parses and
    is a message, is accepted and delivered. *)
Lemma handlePostMessage_text_accepted (t : SSEServerTransport) (req : RequestLike)
    (bodyText : string) (ct : ContentType) (v : JSONValue) (m : JSONRPCMessage) :
  _sseResponse t = true →
  validateRequestHeaders t (headers req) = None →
  contentType_parse (default "" (getHeader (headers req) "content-type")) = inr ct →
  ct_type ct = "application/json" →
  text req = Some (inr bodyText) →
  (length_of bodyText ≤ MAXIMUM_MESSAGE_SIZE)%Z →
  JSON_parse bodyText = inr v →
  JSONRPCMessageSchema_parse v = inr m →
  handlePostMessage t req None =
    {| after := t; sse_log := [];
       post_log := [WriteHead 202 []; End (Some "Accepted")];
       callbacks := [OnMessage m (Some {| requestInfo := plain_headers (headers req);
                                          authInfo := auth req |})];
       ending := Returned |}.
Proof.
  intros Hopen Hv Hct Hty Htext Hlen Hjson Hschema.
  unfold handlePostMessage, read_body.
  rewrite Hopen, Hv, Hct, Hty, Htext, String.eqb_refl.
  rewrite (proj2 (Z.ltb_ge _ _) Hlen). cbn [negb].
  rewrite Hjson. unfold handleMessage. rewrite Hschema. reflexivity.
Qed.

Lemma length_of_app (a b : string) :
  length_of (a ++ b) = (length_of a + length_of b)%Z.
Proof.
  unfold length_of. induction a as [|c a IH]; [reflexivity|].
  change (String c a ++ b) with (String c (a ++ b)).
  cbn [String.length]. lia.
Qed.

Lemma utf8_encode_app (a b : string) :
  utf8_encode (a ++ b) = utf8_encode a ++ utf8_encode b.
Proof.
  induction a as [|c a IH]; [reflexivity|].
  change (String c a ++ b) with (String c (a ++ b)).
  cbn [utf8_encode]. rewrite IH. unfold utf8_bytes.
  destruct (_ <? _)%nat; reflexivity.
Qed.

(** The encoding is never shorter than the string. *)
Lemma length_of_utf8_encode (s : string) :
  (length_of s ≤ length_of (utf8_encode s))%Z.
Proof.
  induction s as [|c s IH]; [reflexivity|].
  cbn [utf8_encode]. rewrite length_of_app.
  change (String c s) with (String c EmptyString ++ s). rewrite length_of_app.
  unfold utf8_bytes. destruct (_ <? _)%nat; unfold length_of in *; cbn; lia.
Qed.


(** [(r & 0x3) | 0x8] prints as one of 8, 9, a and b, whatever [r] is. *)
Lemma variant_digit (r : Z) :
  hex_digit (Z.lor (Z.land r 3) 8) ∈ ["8"; "9"; "a"; "b"]%char.
Proof.
  assert (Hmod : Z.land r 3 = (r mod 4)%Z) by (apply (Z.land_ones r 2); lia).
  pose proof (Z.mod_pos_bound r 4 ltac:(lia)) as Hlt.
  assert (Hcases : Z.land r 3 = 0%Z ∨ Z.land r 3 = 1%Z
                   ∨ Z.land r 3 = 2%Z ∨ Z.land r 3 = 3%Z) by lia.
  destruct Hcases as [-> | [-> | [-> | ->]]]; cbn; apply list_elem_of_In; cbn; tauto.
Qed.

(** The identifier the fallback of [generateSessionId] builds has the shape
    of a version-4 UUID: 36 characters, the version digit 4, and a variant
    digit among 8, 9, a and b. *)
Lemma generateSessionId_polyfill_shape (random16 : nat → Z) :
  String.length (generateSessionId None random16) = 36%nat ∧
  String.get 14 (generateSessionId None random16) = Some "4"%char ∧
  (∃ d : ascii,
     String.get 19 (generateSessionId None random16) = Some d ∧
     d ∈ ["8"; "9"; "a"; "b"]%char).
Proof.
  unfold generateSessionId. cbn [replace_xy Ascii.eqb Bool.eqb].
  split; [reflexivity|]. split; [reflexivity|].
  eexists. split; [reflexivity|]. apply variant_digit.
Qed.

End SSEServerProperties.


(** *** The server transport on concrete requests *)

Section SSEServerExamples.
Import SSEServer.

(** The example of the specification: with [allowedOrigins = ["https://a"]],
    Origin https://b is answered 403 and Origin https://a is accepted. *)
Example origin_b_rejected :
  handlePostMessage (open_server origin_options)
      (json_post "localhost:3000" "https://b" ping) None =
    {| after := open_server origin_options; sse_log := [];
       post_log := [WriteHead 403 []; End (Some "Invalid Origin header: https://b")];
       callbacks := [OnError (new_Error "Invalid Origin header: https://b")];
       ending := Returned |}.
Proof. reflexivity. Qed.

Example origin_a_accepted :
  post_log (handlePostMessage (open_server origin_options)
              (json_post "localhost:3000" "https://a" ping) None)
    = [WriteHead 202 []; End (Some "Accepted")].
Proof. reflexivity. Qed.



Lemma length_string_of_list_ascii (l : list ascii) :
  String.length (string_of_list_ascii l) = List.length l.
Proof.
  induction l as [|c l IH];
    cbn [string_of_list_ascii String.length List.length]; [done|].
  by rewrite IH.
Qed.

Lemma length_of_big_body : length_of big_body = (MAXIMUM_MESSAGE_SIZE + 1)%Z.
Proof.
  unfold length_of, big_body.
  rewrite length_string_of_list_ascii, repeat_length.
  apply Z2Nat.id. unfold MAXIMUM_MESSAGE_SIZE. lia.
Qed.

(** An ASCII body of one byte more than the bound is answered 400. *)
Example ascii_body_too_large :
  post_log (handlePostMessage (open_server lenient_options)
              (json_post "localhost:3000" "https://a" big_body) None)
    = [WriteHead 400 []; End (Some "Error: Request body too large")].
Proof.
  destruct (handlePostMessage_counted_too_large (open_server lenient_options)
              (json_post "localhost:3000" "https://a" big_body)
              (MAXIMUM_MESSAGE_SIZE + 1)) as (error & Heq & _ & Herr).
  - reflexivity.
  - reflexivity.
  - unfold counted_size, json_post. cbn [text]. rewrite length_of_big_body. reflexivity.
  - lia.
  - rewrite Heq, (Herr {| ct_type := "application/json"; ct_parameters := ∅ |});
      reflexivity.
Qed.

Lemma length_of_padding (n : nat) : length_of (padding n) = Z.of_nat n.
Proof.
  unfold length_of, padding. by rewrite length_string_of_list_ascii, repeat_length.
Qed.

Lemma length_of_utf8_padding (n : nat) :
  length_of (utf8_encode (padding n)) = (2 * Z.of_nat n)%Z.
Proof.
  unfold padding. induction n as [|n IH]; [reflexivity|].
  cbn [repeat string_of_list_ascii utf8_encode]. rewrite length_of_app, IH.
  change (length_of (utf8_bytes (ascii_of_nat 233))) with 2%Z. lia.
Qed.

Lemma length_of_multibyte_body : length_of multibyte_body = 2200033%Z.
Proof.
  unfold multibyte_body. rewrite !length_of_app, length_of_padding.
  rewrite Z2Nat.id by lia. reflexivity.
Qed.

Lemma bytes_of_multibyte_body : length_of (utf8_encode multibyte_body) = 4400033%Z.
Proof.
  unfold multibyte_body. rewrite !utf8_encode_app, !length_of_app.
  rewrite length_of_utf8_padding, Z2Nat.id by lia. reflexivity.
Qed.

(** C9 fails on the code. A Fetch-style POST whose body takes 4,400,033
    bytes, more than the 4 * 1024 * 1024 of [MAXIMUM_MESSAGE_SIZE], is answered
    202 and its message is delivered to [onmessage]: [handlePostMessage]
    compares the bound with [bodyText.length], and the text has only 2,200,033
    characters. The same bytes sent by a Node-style request are answered 400. *)
Theorem fetch_body_over_limit_accepted :
  MAXIMUM_MESSAGE_SIZE = (4 * 1024 * 1024)%Z ∧
  body_bytes (json_post "localhost:3000" "https://a" multibyte_body)
    = Some 4400033%Z ∧
  counted_size (json_post "localhost:3000" "https://a" multibyte_body)
    = Some 2200033%Z ∧
  handlePostMessage (open_server lenient_options)
      (json_post "localhost:3000" "https://a" multibyte_body) None =
    {| after := open_server lenient_options; sse_log := [];
       post_log := [WriteHead 202 []; End (Some "Accepted")];
       callbacks :=
         [OnMessage multibyte_body
            (Some {| requestInfo :=
                       plain_headers
                         (headers (json_post "localhost:3000" "https://a" multibyte_body));
                     authInfo := None |})];
       ending := Returned |} ∧
  body_bytes (node_post [utf8_encode multibyte_body]) = Some 4400033%Z ∧
  post_log (handlePostMessage (open_server lenient_options)
              (node_post [utf8_encode multibyte_body]) None)
    = [WriteHead 400 []; End (Some "Error: Request body too large")].
Proof.
  split; [reflexivity|]. split; [|split; [|split; [|split]]].
  - unfold body_bytes, json_post. cbn [text]. by rewrite bytes_of_multibyte_body.
  - unfold counted_size, json_post. cbn [text]. by rewrite length_of_multibyte_body.
  - apply (handlePostMessage_text_accepted (open_server lenient_options)
             (json_post "localhost:3000" "https://a" multibyte_body) multibyte_body
             {| ct_type := "application/json"; ct_parameters := ∅ |}
             multibyte_body multibyte_body).
    + reflexivity.
    + reflexivity.
    + reflexivity.
    + reflexivity.
    + reflexivity.
    + rewrite length_of_multibyte_body. unfold MAXIMUM_MESSAGE_SIZE. lia.
    + reflexivity.
    + reflexivity.
  - unfold body_bytes, node_post. cbn [text on fmap list_fmap app received_size].
    rewrite bytes_of_multibyte_body. reflexivity.
  - destruct (handlePostMessage_counted_too_large (open_server lenient_options)
                (node_post [utf8_encode multibyte_body]) 4400033)
      as (error & Heq & _ & Herr).
    + reflexivity.
    + reflexivity.
    + unfold counted_size, node_post. cbn [text on fmap list_fmap app received_size].
      rewrite bytes_of_multibyte_body. reflexivity.
    + unfold MAXIMUM_MESSAGE_SIZE. lia.
    + rewrite Heq, (Herr {| ct_type := "application/json"; ct_parameters := ∅ |});
        reflexivity.
Qed.

(** A Node-style request that delivers three bytes over the bound in two
    chunks is cut off at the second chunk. *)
Example node_body_too_large :
  received_size [Data big_body; Data "ab"; EndEvent] = (MAXIMUM_MESSAGE_SIZE + 3)%Z.
Proof. cbn [received_size]. rewrite length_of_big_body. reflexivity. Qed.



End SSEServerExamples.

(** ** server/stdio.ts and client/stdio.ts: draining the read buffer *)

Section StdioProperties.
Import ReadBuffer.
Context `{Platform}.

Lemma take_line_shorter (buffer line rest : string) :
  take_line buffer = Some (line, rest) →
  (String.length rest < String.length buffer)%nat.
Proof.
  revert line rest. induction buffer as [|c buffer IH]; intros line rest; cbn.
  - discriminate.
  - destruct (Ascii.eqb c _).
    + intros [= <- <-]. lia.
    + destruct (take_line buffer) as [[l r]|]; [|discriminate].
      intros [= <- <-]. specialize (IH l r eq_refl). lia.
Qed.

Lemma split_lines_take_line (buffer : string) :
  match take_line buffer with
  | None => split_lines buffer = ([], buffer)
  | Some (line, rest) =>
      split_lines buffer = (line :: fst (split_lines rest), snd (split_lines rest))
  end.
Proof.
  induction buffer as [|c buffer IH]; cbn; [reflexivity|].
  destruct (Ascii.eqb c _).
  - by destruct (split_lines buffer).
  - destruct (take_line buffer) as [[l r]|]; rewrite IH; [|reflexivity].
    by destruct (split_lines r).
Qed.

(** With enough turns the loop delivers every complete line, in order, each
    as a message or as an error, and leaves the partial line in the buffer. *)
Lemma processReadBuffer_loop_lines (fuel : nat) :
  ∀ buffer : string,
    (String.length buffer < fuel)%nat →
    processReadBuffer_loop fuel buffer =
      Some (snd (split_lines buffer), deliver <$> fst (split_lines buffer)).
Proof.
  induction fuel as [|fuel IH]; intros buffer Hfuel; [lia|].
  cbn [processReadBuffer_loop]. unfold readMessage.
  pose proof (split_lines_take_line buffer) as Hsplit.
  pose proof (take_line_shorter buffer) as Hshort.
  destruct (take_line buffer) as [[line rest]|].
  - specialize (Hshort line rest eq_refl).
    rewrite Hsplit. cbn [fst snd fmap list_fmap]. unfold deliver at 1.
    destruct (deserializeMessage line) as [e|m];
      rewrite IH by lia; reflexivity.
  - rewrite Hsplit. reflexivity.
Qed.

Lemma processReadBuffer_lines (buffer : string) :
  processReadBuffer buffer =
    Some (snd (split_lines buffer), deliver <$> fst (split_lines buffer)).
Proof. apply processReadBuffer_loop_lines. lia. Qed.

(** The loop returns, whatever the buffer holds. *)
Lemma processReadBuffer_total (buffer : string) :
  ∃ r : string * list callback, processReadBuffer buffer = Some r.
Proof. eexists. apply processReadBuffer_lines. Qed.

Lemma split_lines_line (line rest : string) :
  no_LF line = true →
  split_lines (line ++ LF ++ rest) =
    (line :: fst (split_lines rest), snd (split_lines rest)).
Proof.
  intros Hline. induction line as [|c line IH].
  - change ("" ++ LF ++ rest) with (String (ascii_of_nat 10) rest).
    cbn [split_lines]. destruct (split_lines rest). reflexivity.
  - cbn in Hline. apply andb_prop in Hline as [Hc Hline].
    apply negb_true_iff in Hc.
    change (String c line ++ LF ++ rest) with (String c (line ++ LF ++ rest)).
    cbn [split_lines]. rewrite (IH Hline), Hc. reflexivity.
Qed.

Lemma split_lines_partial (partial : string) :
  no_LF partial = true → split_lines partial = ([], partial).
Proof.
  induction partial as [|c partial IH]; [reflexivity|].
  cbn. intros [Hc Hp]%andb_prop. apply negb_true_iff in Hc.
  by rewrite (IH Hp), Hc.
Qed.

Lemma no_LF_snd_split_lines (buffer : string) :
  no_LF (snd (split_lines buffer)) = true.
Proof.
  induction buffer as [|c buffer IH]; [reflexivity|].
  cbn. destruct (split_lines buffer) as [lines partial]. cbn in IH.
  destruct (Ascii.eqb c _) eqn:Hc; [exact IH|].
  destruct lines; cbn; [|exact IH]. by rewrite Hc, IH.
Qed.

Lemma split_lines_app (a b : string) :
  split_lines (a ++ b) =
    ((fst (split_lines a) ++ fst (split_lines (snd (split_lines a) ++ b)))%list,
     snd (split_lines (snd (split_lines a) ++ b))).
Proof.
  induction a as [|c a IH].
  - cbn [split_lines fst snd app]. change ("" ++ b) with b.
    by destruct (split_lines b).
  - change (String c a ++ b) with (String c (a ++ b)).
    cbn [split_lines]. rewrite IH. destruct (split_lines a) as [la pa].
    cbn [fst snd].
    destruct (Ascii.eqb c _) eqn:Hc; [reflexivity|].
    destruct la as [|l la].
    + cbn [fst snd app].
      change (String c pa ++ b) with (String c (pa ++ b)).
      cbn [split_lines]. rewrite Hc.
      destruct (split_lines (pa ++ b)) as [[|l' lb] pb]; reflexivity.
    + reflexivity.
Qed.

(** Chunk boundaries do not matter: a run of [data] events delivers the
    lines of the bytes received so far. *)
Lemma feed_lines (chunks : list string) :
  ∀ t : StdioServer.StdioServerTransport,
    no_LF (StdioServer._readBuffer t) = true →
    ∃ t' : StdioServer.StdioServerTransport,
      StdioServer.feed t chunks =
        Some (t', deliver <$> fst (split_lines (StdioServer._readBuffer t
                                                 ++ String.concat "" chunks))) ∧
      StdioServer._readBuffer t' =
        snd (split_lines (StdioServer._readBuffer t ++ String.concat "" chunks)).
Proof.
  assert (Happ_nil : ∀ s : string, s ++ "" = s).
  { induction s as [|c s IH]; [reflexivity|].
    change (String c s ++ "") with (String c (s ++ "")). by rewrite IH. }
  assert (Happ_assoc : ∀ a b c : string, (a ++ b) ++ c = a ++ b ++ c).
  { induction a as [|x a IH]; intros b c; [reflexivity|].
    change (String x (a ++ b) ++ c = String x (a ++ b ++ c)).
    change (String x ((a ++ b) ++ c) = String x (a ++ b ++ c)). by rewrite IH. }
  induction chunks as [|chunk rest IH]; intros t Hbuf.
  - exists t. cbn [StdioServer.feed String.concat].
    rewrite Happ_nil, split_lines_partial by done. done.
  - cbn [StdioServer.feed]. unfold StdioServer._ondata, append.
    rewrite processReadBuffer_lines.
    set (t1 := {| StdioServer._readBuffer := _ |}).
    destruct (IH t1) as (t' & Hfeed & Hrest).
    { apply no_LF_snd_split_lines. }
    rewrite Hfeed. exists t'.
    assert (Hcat : StdioServer._readBuffer t ++ String.concat "" (chunk :: rest)
                   = (StdioServer._readBuffer t ++ chunk) ++ String.concat "" rest).
    { rewrite Happ_assoc. f_equal. destruct rest as [|r rest]; cbn [String.concat].
      - by rewrite Happ_nil.
      - reflexivity. }
    rewrite Hcat,
      (split_lines_app (StdioServer._readBuffer t ++ chunk) (String.concat "" rest)),
      Hrest.
    cbn [fst snd]. split; [|reflexivity]. by rewrite fmap_app.
Qed.

(** C7. A stdio transport whose buffer is empty and that receives a line
    that does not decode followed by a line that decodes, in whatever chunks,
    invokes [onerror] once, for the first line, and then [onmessage] once, for
    the second; and, whatever the buffer holds, the loop of
    [processReadBuffer] returns having delivered every complete line in order,
    each as its message or as its error (an error does not end the loop). *)
Theorem stdio_malformed_line_then_valid_line (bad good : string) (e : Error)
    (m : JSONRPCMessage) :
  no_LF bad = true → no_LF good = true →
  deserializeMessage bad = inl e →
  deserializeMessage good = inr m →
  (∀ (t : StdioServer.StdioServerTransport) (chunks : list string),
     StdioServer._readBuffer t = "" →
     String.concat "" chunks = bad ++ LF ++ good ++ LF →
     ∃ t' : StdioServer.StdioServerTransport,
       StdioServer.feed t chunks = Some (t', [OnError e; OnMessage m None]) ∧
       StdioServer._readBuffer t' = "") ∧
  (∀ t : StdioClient.StdioClientTransport,
     StdioClient._readBuffer t = "" →
     ∃ t' : StdioClient.StdioClientTransport,
       StdioClient.on_stdout_data t (bad ++ LF ++ good ++ LF)
         = Some (t', [OnError e; OnMessage m None]) ∧
       StdioClient._readBuffer t' = "") ∧
  (∀ buffer : string,
     processReadBuffer buffer =
       Some (snd (split_lines buffer), deliver <$> fst (split_lines buffer))).
Proof.
  intros Hbad Hgood He Hm.
  assert (Hsplit : split_lines (bad ++ LF ++ good ++ LF) = ([bad; good], "")).
  { rewrite split_lines_line by done.
    assert (Hg : split_lines (good ++ LF) = ([good], "")).
    { assert (Hnil : good ++ LF = good ++ LF ++ "") by reflexivity.
      rewrite Hnil, split_lines_line by done. reflexivity. }
    by rewrite Hg. }
  assert (Hdeliver : deliver <$> [bad; good] = [OnError e; OnMessage m None]).
  { cbn. unfold deliver. by rewrite He, Hm. }
  split; [|split].
  - intros t chunks Hempty Hchunks.
    destruct (feed_lines chunks t) as (t' & Hfeed & Hbuf).
    { by rewrite Hempty. }
    rewrite Hempty in Hfeed, Hbuf.
    change ("" ++ String.concat "" chunks) with (String.concat "" chunks) in Hfeed, Hbuf.
    rewrite Hchunks, Hsplit in Hfeed, Hbuf. cbn [fst snd] in Hfeed, Hbuf.
    rewrite Hdeliver in Hfeed. by exists t'.
  - intros t Hempty. unfold StdioClient.on_stdout_data, append.
    rewrite Hempty.
    change ("" ++ bad ++ LF ++ good ++ LF) with (bad ++ LF ++ good ++ LF).
    rewrite processReadBuffer_lines, Hsplit. cbn [fst snd]. rewrite Hdeliver.
    eexists. split; reflexivity.
  - apply processReadBuffer_lines.
Qed.

End StdioProperties.

(** ** client/sse.ts *)

Section SSEClientProperties.
Import SSEClient.
Context `{Platform}.

(** *** [onclose] is guarded by [_didEmitClose] *)

Lemma closes_app (a b : list observation) :
  closes (a ++ b)%list = (closes a + closes b)%nat.
Proof. unfold closes. by rewrite filter_app, length_app. Qed.





(** Connecting invokes neither [onclose] nor [onmessage], and does not
    resolve the promise of [start()]. *)
Lemma _startStream_quiet (fetches : list fetch_outcome) :
  ∀ (t : SSEClientTransport) (auths : list auth_outcome),
    forallb quiet (_startStream t fetches auths).1.2 = true ∧
    _url (_startStream t fetches auths).1.1 = _url t ∧
    ((_startStream t fetches auths).2 = Connected →
     _didEmitClose (_startStream t fetches auths).1.1 = false).
Proof.
  induction fetches as [|[e|response] fetches IH]; intros t auths;
    cbn [_startStream]; [done|done|].
  destruct (status response =? 401)%Z.
  - cbn [andb]. destruct (www_authenticate response).
    + cbn [_authProvider set_abortController set_resourceMetadataUrl set_endpoint
           set_didEmitClose].
      destruct (_authProvider t); [|done].
      destruct auths as [|[e|[|]] auths]; try done.
      match goal with |- context [_startStream ?t' fetches auths] =>
        specialize (IH t' auths); destruct (_startStream t' fetches auths) as [[t'' obs] c]
      end.
      cbn in *. done.
    + cbn [_authProvider set_abortController set_resourceMetadataUrl set_endpoint
           set_didEmitClose].
      destruct (_authProvider t); [|done].
      destruct auths as [|[e|[|]] auths]; try done.
      match goal with |- context [_startStream ?t' fetches auths] =>
        specialize (IH t' auths); destruct (_startStream t' fetches auths) as [[t'' obs] c]
      end.
      cbn in *. done.
  - cbn [andb]. destruct (negb (ok response)); [done|].
    destruct (negb (has_body response)); done.
Qed.

Lemma quiet_closes (obs : list observation) :
  forallb quiet obs = true → closes obs = 0%nat.
Proof.
  unfold closes. induction obs as [|o obs IH]; [done|].
  cbn [forallb]. intros [Ho Hobs]%andb_prop. rewrite filter_cons.
  destruct o as [| | | |[| |]]; try discriminate; cbn; by apply IH.
Qed.


(** *** Messages wait for the endpoint *)

Lemma messages_follow_resolution_app (a b : list observation) :
  ∀ r : bool,
    messages_follow_resolution r a = true →
    messages_follow_resolution (r || existsb is_resolution a) b = true →
    messages_follow_resolution r (a ++ b)%list = true.
Proof.
  induction a as [|o a IH]; intros r Ha Hb.
  - cbn in Hb. by rewrite orb_false_r in Hb.
  - cbn [app]. destruct o as [| | | |[msg extra|e|]];
      cbn [messages_follow_resolution existsb is_resolution] in *;
      rewrite ?orb_false_l in Hb.
    + apply IH; [done|]. rewrite orb_true_l, orb_true_r in Hb. done.
    + by apply IH.
    + by apply IH.
    + by apply IH.
    + apply andb_prop in Ha as [-> Ha]. cbn. by apply IH.
    + by apply IH.
    + by apply IH.
Qed.

Lemma finish_follows (m : stream) (error : option Error) (was_aborted : bool) :
  messages_follow_resolution (resolved m) (snd (finish m error was_aborted)) = true ∧
  existsb is_resolution (snd (finish m error was_aborted)) = false ∧
  resolved (fst (finish m error was_aborted)) = resolved m.
Proof.
  unfold finish. destruct (resolved m); cbn [negb]; [|done].
  destruct error as [e|]; [done|].
  unfold _emitClose. by destruct (_didEmitClose _).
Qed.

(** A step invokes [onmessage] only when [resolved] is set, and sets
    [resolved] only together with the resolution of [start()]. *)
Lemma stream_step_follows (m : stream) (o : stream_op) :
  messages_follow_resolution (resolved m) (snd (stream_step m o)) = true ∧
  resolved (fst (stream_step m o))
    = resolved m || existsb is_resolution (snd (stream_step m o)).
Proof.
  assert (Hfin : ∀ m' error was_aborted,
             resolved m' = resolved m →
             messages_follow_resolution (resolved m) (snd (finish m' error was_aborted))
               = true ∧
             resolved (fst (finish m' error was_aborted))
               = resolved m || existsb is_resolution (snd (finish m' error was_aborted))).
  { intros m' error was_aborted Hm'.
    destruct (finish_follows m' error was_aborted) as (H1 & H2 & H3).
    rewrite <- Hm', H2, H3, orb_false_r. done. }
  destruct o as [r| |]; cbn [stream_step].
  - destruct (reading m); [|by rewrite orb_false_r].
    unfold process_read. destruct r as [[value|]| |e].
    + destruct (String.eqb (eventName value) "endpoint").
      * destruct (URL_new _ _) as [endpoint|]; [|by apply Hfin].
        destruct (negb (String.eqb _ _)); [by apply Hfin|].
        unfold resolveOnce. cbn [resolved set_transport].
        destruct (resolved m) eqn:Hres; cbn; rewrite ?Hres; done.
      * destruct (resolved m) eqn:Hres; cbn [negb].
        -- destruct (parse_data _); cbn; by rewrite Hres.
        -- cbn. by rewrite Hres.
    + by rewrite orb_false_r.
    + by apply Hfin.
    + destruct (_ || _); by apply Hfin.
  - unfold close_begin. destruct (_reader _); [by rewrite orb_false_r|].
    unfold _emitClose. destruct (_didEmitClose _); cbn; by rewrite orb_false_r.
  - unfold close_end. destruct (closing m); [by rewrite orb_false_r|].
    unfold _emitClose. destruct (_didEmitClose _); cbn; by rewrite orb_false_r.
Qed.

Lemma stream_run_follows (ops : list stream_op) :
  ∀ m : stream,
    messages_follow_resolution (resolved m) (snd (stream_run m ops)) = true.
Proof.
  induction ops as [|o ops IH]; intros m; cbn [stream_run]; [done|].
  pose proof (stream_step_follows m o) as [Hstep Hres].
  destruct (stream_step m o) as [m' obs]. specialize (IH m').
  destruct (stream_run m' ops) as [m'' obs']. cbn [fst snd] in *.
  apply messages_follow_resolution_app; [done|]. by rewrite <- Hres.
Qed.

Lemma quiet_follows (obs : list observation) :
  forallb quiet obs = true →
  messages_follow_resolution false obs = true ∧ existsb is_resolution obs = false.
Proof.
  induction obs as [|o obs IH]; [done|].
  cbn [forallb]. intros [Ho Hobs]%andb_prop.
  destruct o as [| | | |[| |]]; try discriminate; cbn; by apply IH.
Qed.

(** Before an [onmessage] in a trace that starts unresolved there is the
    resolution of [start()]. *)
Lemma messages_follow_resolution_split (pre post : list observation)
    (message : JSONRPCMessage) (extra : option MessageExtraInfo) :
  ∀ r : bool,
    messages_follow_resolution r (pre ++ Callback (OnMessage message extra) :: post)%list
      = true →
    r = true ∨ StartResolved ∈ pre.
Proof.
  induction pre as [|o pre IH]; intros r Hobs.
  - cbn in Hobs. apply andb_prop in Hobs as [-> _]. by left.
  - cbn [app] in Hobs.
    destruct o as [| | | |[msg x|e|]]; cbn [messages_follow_resolution] in Hobs.
    + right. apply list_elem_of_here.
    + destruct (IH r Hobs); [by left|right; by apply list_elem_of_further].
    + destruct (IH r Hobs); [by left|right; by apply list_elem_of_further].
    + destruct (IH r Hobs); [by left|right; by apply list_elem_of_further].
    + apply andb_prop in Hobs as [-> _]. by left.
    + destruct (IH r Hobs); [by left|right; by apply list_elem_of_further].
    + destruct (IH r Hobs); [by left|right; by apply list_elem_of_further].
Qed.

(** C10. In what [start()] and the stream it opens invoke, every [onmessage]
    comes after the resolution of [start()], which the first accepted endpoint
    event brings; and while [resolved] is not set, an event that is not named
    endpoint changes nothing and invokes nothing, neither [onmessage] nor
    [onerror]. *)
Theorem client_messages_wait_for_endpoint :
  (∀ (t : SSEClientTransport) (fetches : list fetch_outcome)
     (auths : list auth_outcome) (ops : list stream_op)
     (pre post : list observation) (message : JSONRPCMessage)
     (extra : option MessageExtraInfo),
     snd (start t fetches auths ops)
       = (pre ++ Callback (OnMessage message extra) :: post)%list →
     StartResolved ∈ pre) ∧
  (∀ (m : stream) (value : EventSourceMessage),
     resolved m = false →
     eventName value ≠ "endpoint" →
     stream_step m (ReadSettles (ReadValue (Some value))) = (m, [])).
Proof.
  split.
  - intros t fetches auths ops pre post message extra Hobs.
    assert (Hall : messages_follow_resolution false (snd (start t fetches auths ops))
                   = true).
    { unfold start. destruct (_ || _); [done|].
      pose proof (_startStream_quiet fetches t auths) as (Hq & _ & _).
      destruct (_startStream t fetches auths) as [[t' obs] [|e|]]; cbn [fst snd] in *.
      - pose proof (stream_run_follows ops (opened t')) as Hrun.
        destruct (stream_run (opened t') ops) as [m obs']. cbn [snd] in *.
        destruct (quiet_follows obs Hq) as [Ha Hb].
        apply messages_follow_resolution_app; [done|]. by rewrite Hb.
      - destruct (quiet_follows obs Hq) as [Ha Hb].
        apply messages_follow_resolution_app; [done|]. done.
      - by destruct (quiet_follows obs Hq). }
    rewrite Hobs in Hall.
    destruct (messages_follow_resolution_split pre post message extra false Hall);
      [discriminate|done].
  - intros m value Hres Hname. cbn [stream_step]. destruct (reading m); [|done].
    unfold process_read. apply String.eqb_neq in Hname. by rewrite Hname, Hres.
Qed.

(** *** [start()] and the endpoint event *)

Lemma finish_url (m : stream) (error : option Error) (was_aborted : bool) :
  _url (transport (fst (finish m error was_aborted))) = _url (transport m) ∧
  StartResolved ∉ snd (finish m error was_aborted).
Proof.
  unfold finish. destruct (resolved m); cbn [negb].
  - destruct error as [e|].
    + split; [done|]. intros Hin. apply list_elem_of_singleton in Hin. discriminate.
    + unfold _emitClose. destruct (_didEmitClose _); cbn.
      * split; [done|]. apply not_elem_of_nil.
      * split; [done|]. intros Hin. apply list_elem_of_singleton in Hin. discriminate.
  - split; [done|]. intros Hin. apply list_elem_of_singleton in Hin. discriminate.
Qed.

(** Only an endpoint event that resolves to the origin of the connection
    resolves [start()]; no step changes [_url]. *)
Lemma stream_step_resolution (m : stream) (o : stream_op) :
  _url (transport (fst (stream_step m o))) = _url (transport m) ∧
  (StartResolved ∈ snd (stream_step m o) →
   ∃ (value : EventSourceMessage) (endpoint : URL),
     o = ReadSettles (ReadValue (Some value)) ∧
     eventName value = "endpoint" ∧
     URL_new (data value) (href (_url (transport m))) = Some endpoint ∧
     origin endpoint = origin (_url (transport m))).
Proof.
  destruct o as [r| |]; cbn [stream_step].
  - destruct (reading m); [|split; [done|by intros ?%elem_of_nil]].
    unfold process_read. destruct r as [[value|]| |e].
    + destruct (String.eqb_spec (eventName value) "endpoint") as [Hname|Hname].
      * destruct (URL_new _ _) as [endpoint|] eqn:Hurl.
        -- destruct (String.eqb_spec (origin endpoint)
                       (origin (_url (transport
                          (set_transport (set_endpoint (Some endpoint) (transport m)) m)))))
             as [Ho|Ho]; cbn [negb].
           ++ split.
              ** unfold resolveOnce. by destruct (negb _).
              ** intros _. exists value, endpoint. done.
           ++ destruct (finish_url
                          (set_transport (set_endpoint (Some endpoint) (transport m)) m)
                          (Some (new_Error
                             ("Endpoint origin does not match connection origin: "
                              ++ origin endpoint))) false) as [Hu Hn].
              split; [exact Hu | intros Hin; by destruct Hn].
        -- destruct (finish_url m (Some (named_Error "TypeError" "Invalid URL")) false)
             as [Hu Hn].
           split; [exact Hu | intros Hin; by destruct Hn].
      * destruct (negb (resolved m)); [split; [done|by intros ?%elem_of_nil]|].
        destruct (parse_data _); (split; [done|]);
          intros Hin; apply list_elem_of_singleton in Hin; discriminate.
    + split; [done|by intros ?%elem_of_nil].
    + destruct (finish_url m None (aborted m)) as [Hu Hn].
      split; [exact Hu | intros Hin; by destruct Hn].
    + destruct (_ || _).
      * destruct (finish_url m None true) as [Hu Hn].
        split; [exact Hu | intros Hin; by destruct Hn].
      * destruct (finish_url m (Some e) false) as [Hu Hn].
        split; [exact Hu | intros Hin; by destruct Hn].
  - unfold close_begin. destruct (_reader _).
    + split; [done|by intros ?%elem_of_nil].
    + unfold _emitClose. destruct (_didEmitClose _); cbn.
      * split; [done|by intros ?%elem_of_nil].
      * split; [done|]. intros Hin. apply list_elem_of_singleton in Hin. discriminate.
  - unfold close_end. destruct (closing m).
    + split; [done|by intros ?%elem_of_nil].
    + unfold _emitClose. destruct (_didEmitClose _); cbn.
      * split; [done|by intros ?%elem_of_nil].
      * split; [done|]. intros Hin. apply list_elem_of_singleton in Hin. discriminate.
Qed.

Lemma stream_run_resolution (ops : list stream_op) :
  ∀ m : stream,
    StartResolved ∈ snd (stream_run m ops) →
    ∃ (ops1 : list stream_op) (value : EventSourceMessage) (endpoint : URL)
      (ops2 : list stream_op),
      ops = (ops1 ++ ReadSettles (ReadValue (Some value)) :: ops2)%list ∧
      eventName value = "endpoint" ∧
      URL_new (data value) (href (_url (transport m))) = Some endpoint ∧
      origin endpoint = origin (_url (transport m)).
Proof.
  induction ops as [|o ops IH]; intros m; cbn [stream_run].
  - by intros ?%elem_of_nil.
  - pose proof (stream_step_resolution m o) as [Hurl Hstep].
    destruct (stream_step m o) as [m' obs]. specialize (IH m').
    destruct (stream_run m' ops) as [m'' obs']. cbn [fst snd] in *.
    intros [Hin|Hin]%elem_of_app.
    + destruct (Hstep Hin) as (value & endpoint & -> & Hname & Hnew & Ho).
      by exists [], value, endpoint, ops.
    + destruct (IH Hin) as (ops1 & value & endpoint & ops2 & -> & Hname & Hnew & Ho).
      rewrite Hurl in Hnew, Ho.
      by exists (o :: ops1), value, endpoint, ops2.
Qed.

Lemma quiet_no_resolution (obs : list observation) :
  forallb quiet obs = true → StartResolved ∉ obs.
Proof.
  intros Hq Hin. apply list_elem_of_In in Hin.
  rewrite forallb_forall in Hq. by specialize (Hq _ Hin).
Qed.

Lemma stream_run_app (a b : list stream_op) :
  ∀ m : stream,
    stream_run m (a ++ b)%list =
      ((stream_run (fst (stream_run m a)) b).1,
       (snd (stream_run m a) ++ snd (stream_run (fst (stream_run m a)) b))%list).
Proof.
  induction a as [|o a IH]; intros m; cbn [app stream_run].
  - cbn. by destruct (stream_run m b).
  - destruct (stream_step m o) as [m' obs]. rewrite IH.
    destruct (stream_run m' a) as [m'' obs']. cbn [fst snd].
    destruct (stream_run m'' b) as [m3 obs3]. cbn [fst snd].
    by rewrite app_assoc.
Qed.

(** Reads that bring no endpoint event leave an unresolved stream as it is. *)
Lemma stream_run_other_reads (pre : list stream_op) (m : stream) :
  resolved m = false →
  forallb other_read pre = true →
  stream_run m pre = (m, []).
Proof.
  intros Hres. induction pre as [|o pre IH]; [done|].
  cbn [forallb]. intros [Ho Hpre]%andb_prop. cbn [stream_run].
  assert (Hstep : stream_step m o = (m, [])).
  { destruct o as [[[value|]| |e]| |]; try discriminate; cbn [stream_step other_read] in *.
    - destruct (reading m); [|done]. unfold process_read.
      apply negb_true_iff in Ho. by rewrite Ho, Hres.
    - by destruct (reading m). }
  rewrite Hstep, (IH Hpre). done.
Qed.

(** While [resolved] is not set, what a read brings about does not invoke
    [onclose]. *)
Lemma stream_step_read_unresolved (m : stream) (r : read_result) :
  resolved m = false →
  closes (snd (stream_step m (ReadSettles r))) = 0%nat.
Proof.
  intros Hres. cbn [stream_step]. destruct (reading m); [|done].
  assert (Hfin : ∀ m' error was_aborted,
             resolved m' = false → closes (snd (finish m' error was_aborted)) = 0%nat).
  { intros m' error was_aborted Hm'. unfold finish. by rewrite Hm'. }
  unfold process_read. destruct r as [[value|]| |e].
  - destruct (String.eqb (eventName value) "endpoint").
    + destruct (URL_new _ _) as [endpoint|]; [|by apply Hfin].
      destruct (negb (String.eqb _ _)); [by apply Hfin|].
      unfold resolveOnce. by destruct (negb _).
    + by rewrite Hres.
  - done.
  - by apply Hfin.
  - destruct (_ || _); by apply Hfin.
Qed.

Lemma stream_run_reads_unresolved (ops : list stream_op) :
  ∀ m : stream,
    resolved m = false →
    forallb is_read ops = true →
    StartResolved ∉ snd (stream_run m ops) →
    closes (snd (stream_run m ops)) = 0%nat.
Proof.
  induction ops as [|o ops IH]; intros m Hres Hreads; [done|].
  cbn [forallb] in Hreads. apply andb_prop in Hreads as [Ho Hreads].
  destruct o as [r| |]; try discriminate. cbn [stream_run].
  pose proof (stream_step_read_unresolved m r Hres) as Hclose.
  pose proof (stream_step_follows m (ReadSettles r)) as [_ Hnext].
  destruct (stream_step m (ReadSettles r)) as [m' obs]. specialize (IH m').
  destruct (stream_run m' ops) as [m'' obs']. cbn [fst snd] in *.
  intros Hnot. rewrite closes_app, Hclose.
  rewrite Hres, orb_false_l in Hnext.
  destruct (existsb is_resolution obs) eqn:Hex.
  - exfalso. apply Hnot, elem_of_app. left.
    apply existsb_exists in Hex as (o & Hin & Ho').
    destruct o; try discriminate. by apply list_elem_of_In.
  - apply IH; [done|done|]. intros Hin. apply Hnot, elem_of_app. by right.
Qed.

(** C5. [start()] resolves only if the stream delivers an endpoint event
    whose URL, resolved against the connection URL, has the origin of the
    connection URL. When, before any endpoint event, the stream ends, or its
    read fails with an abort, or the first endpoint event resolves to another
    origin, all that [start()] does after connecting is reject, with "SSE
    connection ended before receiving endpoint event", "SSE connection
    aborted" (any other read failure is passed on as it is) or "Endpoint
    origin does not match connection origin: ...";
    [onclose] is not invoked. More generally, when [start()] does not resolve,
    [onclose] is not invoked unless [close()] is called. *)
Theorem client_start_needs_endpoint :
  (∀ (t : SSEClientTransport) (fetches : list fetch_outcome)
     (auths : list auth_outcome) (ops : list stream_op),
     StartResolved ∈ snd (start t fetches auths ops) →
     ∃ (ops1 : list stream_op) (value : EventSourceMessage) (endpoint : URL)
       (ops2 : list stream_op),
       ops = (ops1 ++ ReadSettles (ReadValue (Some value)) :: ops2)%list ∧
       eventName value = "endpoint" ∧
       URL_new (data value) (href (_url t)) = Some endpoint ∧
       origin endpoint = origin (_url t)) ∧
  (∀ (t t' : SSEClientTransport) (fetches : list fetch_outcome)
     (auths : list auth_outcome) (obs : list observation) (pre : list stream_op),
     _abortController t || _reader t = false →
     _startStream t fetches auths = (t', obs, Connected) →
     forallb other_read pre = true →
     forallb quiet obs = true ∧
     snd (start t fetches auths (pre ++ [ReadSettles ReadDone]))
       = (obs ++ [StartRejected
                    (new_Error "SSE connection ended before receiving endpoint event")])%list ∧
     (∀ e : Error,
        name e = "AbortError" →
        snd (start t fetches auths (pre ++ [ReadSettles (ReadThrows e)]))
          = (obs ++ [StartRejected (new_Error "SSE connection aborted")])%list) ∧
     (∀ e : Error,
        name e ≠ "AbortError" →
        snd (start t fetches auths (pre ++ [ReadSettles (ReadThrows e)]))
          = (obs ++ [StartRejected e])%list) ∧
     (∀ (value : EventSourceMessage) (endpoint : URL),
        eventName value = "endpoint" →
        URL_new (data value) (href (_url t)) = Some endpoint →
        origin endpoint ≠ origin (_url t) →
        snd (start t fetches auths (pre ++ [ReadSettles (ReadValue (Some value))]))
          = (obs ++ [StartRejected
                       (new_Error ("Endpoint origin does not match connection origin: "
                                   ++ origin endpoint))])%list)) ∧
  (∀ (t : SSEClientTransport) (fetches : list fetch_outcome)
     (auths : list auth_outcome) (ops : list stream_op),
     forallb is_read ops = true →
     StartResolved ∉ snd (start t fetches auths ops) →
     closes (snd (start t fetches auths ops)) = 0%nat).
Proof.
  split; [|split].
  - intros t fetches auths ops. unfold start.
    destruct (_ || _).
    { cbn [snd]. intros Hin. apply list_elem_of_singleton in Hin. discriminate. }
    pose proof (_startStream_quiet fetches t auths) as (Hq & Hurl & _).
    destruct (_startStream t fetches auths) as [[t' obs] [|e|]]; cbn [fst snd] in *.
    + pose proof (stream_run_resolution ops (opened t')) as Hrun.
      destruct (stream_run (opened t') ops) as [m obs']. cbn [snd] in *.
      intros [Hin|Hin]%elem_of_app.
      * by destruct (quiet_no_resolution obs Hq).
      * cbn [transport opened] in Hrun. rewrite Hurl in Hrun. by apply Hrun.
    + intros [Hin|Hin]%elem_of_app.
      * by destruct (quiet_no_resolution obs Hq).
      * apply list_elem_of_singleton in Hin. discriminate.
    + intros Hin. by destruct (quiet_no_resolution obs Hq).
  - intros t t' fetches auths obs pre Hidle Hconn Hpre.
    pose proof (_startStream_quiet fetches t auths) as (Hq & Hurl & _).
    rewrite Hconn in Hq, Hurl. cbn [fst snd] in Hq, Hurl.
    assert (Hlast : ∀ o : stream_op,
               snd (start t fetches auths (pre ++ [o]))
                 = (obs ++ snd (stream_step (opened t') o))%list).
    { intros o. unfold start. rewrite Hidle, Hconn, stream_run_app.
      rewrite (stream_run_other_reads pre (opened t') eq_refl Hpre).
      cbn [fst snd stream_run app].
      destruct (stream_step (opened t') o) as [m obs']. cbn [snd].
      by rewrite app_nil_r. }
    split; [exact Hq|]. split; [|split; [|split]].
    + rewrite Hlast. reflexivity.
    + intros e He. rewrite Hlast. cbn [stream_step opened reading process_read].
      rewrite He. reflexivity.
    + intros e He. rewrite Hlast. cbn [stream_step opened reading process_read].
      apply String.eqb_neq in He. rewrite He. reflexivity.
    + intros value endpoint Hname Hnew Ho. rewrite Hlast.
      cbn [stream_step opened reading process_read transport].
      apply String.eqb_eq in Hname. rewrite Hname, Hurl, Hnew.
      cbn [set_transport transport set_endpoint _url].
      rewrite Hurl. apply String.eqb_neq in Ho. rewrite Ho. reflexivity.
  - intros t fetches auths ops Hreads. unfold start.
    destruct (_ || _); [done|].
    pose proof (_startStream_quiet fetches t auths) as (Hq & _ & _).
    destruct (_startStream t fetches auths) as [[t' obs] [|e|]]; cbn [fst snd] in *.
    + pose proof (stream_run_reads_unresolved ops (opened t') eq_refl Hreads) as Hrun.
      destruct (stream_run (opened t') ops) as [m obs']. cbn [snd] in *.
      intros Hnot. rewrite closes_app, (quiet_closes obs Hq).
      apply Hrun. intros Hin. apply Hnot, elem_of_app. by right.
    + intros _. by rewrite closes_app, (quiet_closes obs Hq).
    + intros _. by apply quiet_closes.
Qed.

(** *** [send] and 401 *)

Lemma status_401_not_ok (response : Response) :
  status response = 401%Z → ok response = false.
Proof. intros Hs. unfold ok. rewrite Hs. reflexivity. Qed.

(** The re-authentication cycle of [send]: a 401, with a provider that then
    authorizes, is followed by the same [send] again, on the outcomes that
    are left. *)
Lemma send_401_authorized (t : SSEClientTransport) (message : JSONRPCMessage)
    (response : Response) (fetches : list fetch_outcome) (auths : list auth_outcome)
    (endpoint : URL) :
  _endpoint t = Some endpoint →
  _authProvider t = true →
  status response = 401%Z →
  send t message (FetchReturns response :: fetches) (AuthReturns AUTHORIZED :: auths) =
    let resend :=
      send (set_resourceMetadataUrl (resource_metadata response) t) message
        fetches auths in
    (resend.1.1,
     (Fetched "POST" (href endpoint) (Some (JSON_stringify (message_value message)))
      :: AuthCalled :: resend.1.2)%list,
     resend.2).
Proof.
  intros Hep Hauth Hs. cbn [send]. rewrite Hep.
  rewrite (status_401_not_ok response Hs), Hs, Hauth. cbn [Z.eqb Pos.eqb andb].
  by destruct (send _ message fetches auths) as [[t' obs] c].
Qed.

(** However many times in a row the server answers 401 and the provider
    authorizes, [send] authorizes and posts again. *)
Lemma send_401_repeated (message : JSONRPCMessage) (unauthorized accepted : Response)
    (endpoint : URL) (n : nat) :
  status unauthorized = 401%Z →
  ok accepted = true →
  ∀ t : SSEClientTransport,
    _endpoint t = Some endpoint →
    _authProvider t = true →
    (send t message
       (repeat (FetchReturns unauthorized) n ++ [FetchReturns accepted])%list
       (repeat (AuthReturns AUTHORIZED) n)).2 = Returned ∧
    count is_auth
      (send t message
         (repeat (FetchReturns unauthorized) n ++ [FetchReturns accepted])%list
         (repeat (AuthReturns AUTHORIZED) n)).1.2 = n ∧
    count is_post
      (send t message
         (repeat (FetchReturns unauthorized) n ++ [FetchReturns accepted])%list
         (repeat (AuthReturns AUTHORIZED) n)).1.2 = S n ∧
    count is_error
      (send t message
         (repeat (FetchReturns unauthorized) n ++ [FetchReturns accepted])%list
         (repeat (AuthReturns AUTHORIZED) n)).1.2 = 0%nat.
Proof.
  intros Hs Hok. induction n as [|n IH]; intros t Hep Hauth.
  - cbn [repeat app send]. rewrite Hep, Hok. done.
  - cbn [repeat app]. rewrite (send_401_authorized _ _ _ _ _ endpoint) by done.
    cbn zeta. cbn [fst snd].
    destruct (IH (set_resourceMetadataUrl (resource_metadata unauthorized) t))
      as (Hc & Ha & Hp & He); [done|done|].
    split; [exact Hc|]. unfold count in *. cbn [List.filter is_auth is_post is_error].
    cbn [List.length]. rewrite Ha, Hp, He. done.
Qed.

(** C2, as the code has it. With an auth provider and a known endpoint, a
    401 makes [send] call [auth] once and, when that returns AUTHORIZED, send
    the same message again: what that second [send] does, and how it ends, is
    what the first does and how it ends. A 401 on the resend starts the same
    cycle again; nothing counts the cycles, so after any number of 401s in a
    row [send] still authorizes and posts. [send] fails as soon as [auth] does
    not return AUTHORIZED, or a response is neither 2xx nor 401: the error is
    thrown to the caller and passed to [onerror], once. *)
Theorem send_reauthentication_cycle (t : SSEClientTransport)
    (message : JSONRPCMessage) (endpoint : URL) (unauthorized : Response) :
  _endpoint t = Some endpoint →
  _authProvider t = true →
  status unauthorized = 401%Z →
  (∀ (fetches : list fetch_outcome) (auths : list auth_outcome),
     send t message (FetchReturns unauthorized :: fetches)
       (AuthReturns AUTHORIZED :: auths) =
       let resend :=
         send (set_resourceMetadataUrl (resource_metadata unauthorized) t) message
           fetches auths in
       (resend.1.1,
        (Fetched "POST" (href endpoint) (Some (JSON_stringify (message_value message)))
         :: AuthCalled :: resend.1.2)%list,
        resend.2)) ∧
  (∀ (n : nat) (accepted : Response),
     ok accepted = true →
     let outcome :=
       send t message
         (repeat (FetchReturns unauthorized) n ++ [FetchReturns accepted])%list
         (repeat (AuthReturns AUTHORIZED) n) in
     outcome.2 = Returned ∧
     count is_auth outcome.1.2 = n ∧
     count is_post outcome.1.2 = S n ∧
     count is_error outcome.1.2 = 0%nat) ∧
  (∀ (fetches : list fetch_outcome) (auths : list auth_outcome),
     let outcome :=
       send t message (FetchReturns unauthorized :: fetches)
         (AuthReturns REDIRECT :: auths) in
     outcome.2 = Threw (UnauthorizedError None) ∧
     outcome.1.2 =
       [Fetched "POST" (href endpoint) (Some (JSON_stringify (message_value message)));
        AuthCalled; Callback (OnError (UnauthorizedError None))]) ∧
  (∀ (failed : Response) (fetches : list fetch_outcome) (auths : list auth_outcome),
     ok failed = false →
     status failed ≠ 401%Z →
     let outcome := send t message (FetchReturns failed :: fetches) auths in
     ∃ error : Error,
       outcome.2 = Threw error ∧
       outcome.1.2 =
         [Fetched "POST" (href endpoint) (Some (JSON_stringify (message_value message)));
          Callback (OnError error)]).
Proof.
  intros Hep Hauth Hs. split; [|split; [|split]].
  - intros fetches auths. by apply send_401_authorized.
  - intros n accepted Hok. cbn zeta.
    by apply (send_401_repeated message unauthorized accepted endpoint n).
  - intros fetches auths. cbn zeta. cbn [send]. rewrite Hep.
    rewrite (status_401_not_ok unauthorized Hs), Hs, Hauth. done.
  - intros failed fetches auths Hok Hne. cbn zeta. cbn [send]. rewrite Hep, Hok.
    apply Z.eqb_neq in Hne. rewrite Hne. cbn [andb]. eexists. done.
Qed.

End SSEClientProperties.

(** *** The stdio transports and the push client on concrete inputs *)

Section ClientExamples.
Import SSEClient.

Lemma stdio_malformed_line_then_valid_line_witness :
  ∃ t' : StdioServer.StdioServerTransport,
    StdioServer.feed listening_server
      ["not js"; "on" ++ LF ++ "{jsonrpc:2.0,"; "method:ping}" ++ LF]
      = Some (t', [OnError (named_Error "SyntaxError" "Unexpected token");
                   OnMessage valid_line None]) ∧
    StdioServer._readBuffer t' = "".
Proof.
  destruct (stdio_malformed_line_then_valid_line (H := toy_platform)
              malformed_line valid_line
              (named_Error "SyntaxError" "Unexpected token") valid_line
              eq_refl eq_refl eq_refl eq_refl) as [Hserver _].
  exact (Hserver listening_server
           ["not js"; "on" ++ LF ++ "{jsonrpc:2.0,"; "method:ping}" ++ LF]
           eq_refl eq_refl).
Defined.

Example stdio_client_malformed_then_valid :
  StdioClient.on_stdout_data running_client
    (malformed_line ++ LF ++ valid_line ++ LF)
  = Some (running_client,
          [OnError (named_Error "SyntaxError" "Unexpected token");
           OnMessage valid_line None]).
Proof. reflexivity. Qed.

(** The stdio server transport invokes [onclose] at every [close()]. *)
Example stdio_server_close_twice :
  snd (StdioServer.close (fst (StdioServer.close listening_server))) = [OnClose] ∧
  snd (StdioServer.close listening_server) = [OnClose].
Proof. split; reflexivity. Qed.

(** After [close()] of the stdio client transport the child reports the
    abort and then its exit: [onclose] is invoked for each. *)
Example stdio_client_close_notifies_twice :
  (snd (StdioClient.close running_client)
   ++ snd (StdioClient.on_process_error (fst (StdioClient.close running_client))
             (named_Error "AbortError" "The operation was aborted"))
   ++ snd (StdioClient.on_process_close (fst (StdioClient.close running_client))))%list
  = [OnClose; OnClose].
Proof. reflexivity. Qed.

(** A partial line stays in the buffer and is completed by the next chunk. *)
Example stdio_partial_line :
  StdioServer._ondata listening_server "{jsonrpc:2.0,"
  = Some ({| StdioServer._readBuffer := "{jsonrpc:2.0,";
             StdioServer._started := true;
             StdioServer._stdin := StdioServer._stdin listening_server |}, []).
Proof. reflexivity. Qed.

(** [close()] twice, with the stream ending in between, invokes [onclose]
    once; so does [close()] after the remote end has closed the stream. *)
Example client_close_twice :
  snd (start fresh_client [FetchReturns (response_of 200)] []
         [endpoint_event "/messages?sessionId=1"; message_event ping;
          CloseCalled; ReadSettles ReadDone; CancelSettles; CloseCalled])
  = [Fetched "GET" "http://localhost:3000/sse" None; StartResolved;
     Callback (OnMessage ping None); Callback OnClose].
Proof. reflexivity. Qed.

Example client_close_after_remote_close :
  snd (start fresh_client [FetchReturns (response_of 200)] []
         [endpoint_event "/messages?sessionId=1"; ReadSettles ReadDone;
          CloseCalled; CloseCalled])
  = [Fetched "GET" "http://localhost:3000/sse" None; StartResolved;
     Callback OnClose].
Proof. reflexivity. Qed.

Lemma client_messages_wait_for_endpoint_witness :
  StartResolved ∈ [Fetched "GET" "http://localhost:3000/sse" None; StartResolved].
Proof.
  destruct (client_messages_wait_for_endpoint (H := toy_platform)) as [Horder _].
  exact (Horder fresh_client [FetchReturns (response_of 200)] []
           [message_event ping; endpoint_event "/messages?sessionId=1";
            message_event ping]
           [Fetched "GET" "http://localhost:3000/sse" None; StartResolved] []
           ping None eq_refl).
Defined.

(** The message that comes before the endpoint event is dropped; the one
    after it is delivered. *)
Example client_early_message_discarded :
  snd (start fresh_client [FetchReturns (response_of 200)] []
         [message_event ping; message_event "oops";
          endpoint_event "/messages?sessionId=1"; message_event ping])
  = [Fetched "GET" "http://localhost:3000/sse" None; StartResolved;
     Callback (OnMessage ping None)].
Proof. reflexivity. Qed.

Lemma client_start_needs_endpoint_witness :
  snd (start fresh_client [FetchReturns (response_of 200)] []
         ([message_event ping] ++ [ReadSettles ReadDone]))
  = [Fetched "GET" "http://localhost:3000/sse" None;
     StartRejected (new_Error "SSE connection ended before receiving endpoint event")].
Proof.
  destruct (client_start_needs_endpoint (H := toy_platform)) as (_ & Hfail & _).
  destruct (Hfail fresh_client
              (set_reader true
                 (set_abortController true
                    (set_endpoint None (set_didEmitClose false fresh_client))))
              [FetchReturns (response_of 200)] []
              [Fetched "GET" "http://localhost:3000/sse" None]
              [message_event ping] eq_refl eq_refl eq_refl) as (_ & Hended & _).
  exact Hended.
Defined.

Example client_endpoint_of_other_origin :
  snd (start fresh_client [FetchReturns (response_of 200)] []
         [message_event ping; endpoint_event "http://evil.example/messages"])
  = [Fetched "GET" "http://localhost:3000/sse" None;
     StartRejected
       (new_Error "Endpoint origin does not match connection origin: http://evil.example")].
Proof. reflexivity. Qed.

(** [close()] during [start()]: the start fails as aborted, and the
    [onclose] is the one of [close()]. *)
Example client_close_during_start :
  snd (start fresh_client [FetchReturns (response_of 200)] []
         [CloseCalled; ReadSettles ReadDone; CancelSettles])
  = [Fetched "GET" "http://localhost:3000/sse" None;
     StartRejected (new_Error "SSE connection aborted"); Callback OnClose].
Proof. reflexivity. Qed.

Lemma send_reauthentication_cycle_witness :
  (send connected_client ping
     (repeat (FetchReturns (response_of 401)) 3 ++ [FetchReturns (response_of 204)])
     (repeat (AuthReturns AUTHORIZED) 3)).2 = Returned ∧
  count is_auth
    (send connected_client ping
       (repeat (FetchReturns (response_of 401)) 3 ++ [FetchReturns (response_of 204)])
       (repeat (AuthReturns AUTHORIZED) 3)).1.2 = 3%nat ∧
  count is_post
    (send connected_client ping
       (repeat (FetchReturns (response_of 401)) 3 ++ [FetchReturns (response_of 204)])
       (repeat (AuthReturns AUTHORIZED) 3)).1.2 = 4%nat ∧
  count is_error
    (send connected_client ping
       (repeat (FetchReturns (response_of 401)) 3 ++ [FetchReturns (response_of 204)])
       (repeat (AuthReturns AUTHORIZED) 3)).1.2 = 0%nat.
Proof.
  destruct (send_reauthentication_cycle (H := toy_platform) connected_client ping
              {| Toy.u_origin := "http://localhost:3000"; Toy.u_pathname := "/messages";
                 Toy.u_search := "?sessionId=1"; Toy.u_hash := "" |}
              (response_of 401) eq_refl eq_refl eq_refl) as (_ & Hrepeat & _).
  exact (Hrepeat 3%nat (response_of 204) eq_refl).
Defined.

(** C2, as the specification words it, fails: when the resend receives a 401
    too, [send] does not fail; it authorizes and sends a third time, and here
    it succeeds without any error reported. *)
Lemma second_401_is_retried :
  send connected_client ping
    [FetchReturns (response_of 401); FetchReturns (response_of 401);
     FetchReturns (response_of 200)]
    [AuthReturns AUTHORIZED; AuthReturns AUTHORIZED]
  = (connected_client,
     [Fetched "POST" "http://localhost:3000/messages?sessionId=1" (Some ping);
      AuthCalled;
      Fetched "POST" "http://localhost:3000/messages?sessionId=1" (Some ping);
      AuthCalled;
      Fetched "POST" "http://localhost:3000/messages?sessionId=1" (Some ping)],
     Returned).
Proof. reflexivity. Qed.

(** A second 401 is fatal only when the provider does not authorize again. *)
Example second_401_not_authorized :
  (send connected_client ping
     [FetchReturns (response_of 401); FetchReturns (response_of 401)]
     [AuthReturns AUTHORIZED; AuthReturns REDIRECT]).2
  = Threw (named_Error "UnauthorizedError" "Unauthorized").
Proof. reflexivity. Qed.

End ClientExamples.

(** * Further properties

    Behaviour of the four transports beyond the statements above: error
    paths, invariants over whole runs, and how the methods compose. *)

(** ** server/sse.ts: the SSE transport *)

Section SSEServerFurther.
Import SSEServer.
Context `{Platform}.

(** X1. A POST hands a message to [onmessage] exactly when it is answered 202:
    then [onmessage] is the only callback, it is invoked once, with the
    headers and the principal of the request, and the call returns. Any other
    outcome invokes no callback or [onerror] alone, once. *)
Theorem handlePostMessage_delivers_iff_accepted (t : SSEServerTransport)
    (req : RequestLike) (parsedBody : option body_value) :
  (answered (handlePostMessage t req parsedBody) = Some 202%Z ∧
   ending (handlePostMessage t req parsedBody) = Returned ∧
   ∃ message : JSONRPCMessage,
     callbacks (handlePostMessage t req parsedBody) =
       [OnMessage message
          (Some {| requestInfo := plain_headers (headers req);
                   authInfo := auth req |})])
  ∨ (answered (handlePostMessage t req parsedBody) ≠ Some 202%Z ∧
     (callbacks (handlePostMessage t req parsedBody) = []
      ∨ ∃ error : Error,
          callbacks (handlePostMessage t req parsedBody) = [OnError error])).
Proof.
  unfold handlePostMessage, handleMessage.
  destruct (_sseResponse t); cbn; [|right; split; [discriminate|by left]].
  destruct (validateRequestHeaders t (headers req)); cbn;
    [right; split; [discriminate|right; by eexists]|].
  destruct (read_body req parsedBody) as [[error|body]|]; cbn;
    [right; split; [discriminate|right; by eexists]| |
     right; split; [discriminate|by left]].
  destruct body as [s|v]; [destruct (JSON_parse s) as [?|v]|]; cbn;
    try (right; split; [discriminate|by left]);
    (destruct (JSONRPCMessageSchema_parse v) as [error|message]; cbn;
      [right; split; [discriminate|right; by eexists]
      |left; repeat split; by eexists]).
Qed.

(** The four ways [handlePostMessage] ends. *)
Lemma handlePostMessage_shape (t : SSEServerTransport) (req : RequestLike)
    (parsedBody : option body_value) :
  (_sseResponse t = false ∧ ∃ text c,
     handlePostMessage t req parsedBody = respond t 500 text [] (Threw c))
  ∨ (_sseResponse t = true ∧ validateRequestHeaders t (headers req) ≠ None ∧
     ∃ text cbs, handlePostMessage t req parsedBody = respond t 403 text cbs Returned)
  ∨ (_sseResponse t = true ∧ validateRequestHeaders t (headers req) = None ∧
     read_body req parsedBody = None ∧
     handlePostMessage t req parsedBody = no_effect t Pending)
  ∨ (_sseResponse t = true ∧ validateRequestHeaders t (headers req) = None ∧
     read_body req parsedBody ≠ None ∧
     ∃ status text cbs, (status = 400 ∨ status = 202)%Z ∧
       handlePostMessage t req parsedBody = respond t status text cbs Returned).
Proof.
  unfold handlePostMessage, handleMessage.
  destruct (_sseResponse t); cbn; [|left; split; [done|by do 2 eexists]].
  right.
  destruct (validateRequestHeaders t (headers req)); cbn;
    [left; repeat split; [done|by do 2 eexists]|].
  right.
  destruct (read_body req parsedBody) as [[error|body]|]; cbn;
    [right; repeat split; [done|]; do 3 eexists; split; [by left|done]| |by left].
  right. repeat split; [done|].
  destruct body as [s|v]; [destruct (JSON_parse s) as [?|v]|]; cbn;
    try (do 3 eexists; split; [by left|done]);
    (destruct (JSONRPCMessageSchema_parse v);
     do 3 eexists; (split; [|done]); [by left|by right]).
Qed.

(** X2. Handling a POST leaves the transport as it was and writes nothing to the
    event stream. It answers 500 exactly when the stream is not open, and 403
    exactly when the stream is open and the headers fail validation. The
    call stays pending, with nothing written and no callback, exactly when
    the body never arrives; otherwise the POST gets one status line and one
    body, the status being 500, 403, 400 or 202. *)
Theorem handlePostMessage_answers_once (t : SSEServerTransport)
    (req : RequestLike) (parsedBody : option body_value) :
  after (handlePostMessage t req parsedBody) = t ∧
  sse_log (handlePostMessage t req parsedBody) = [] ∧
  (answered (handlePostMessage t req parsedBody) = Some 500%Z
     ↔ _sseResponse t = false) ∧
  (answered (handlePostMessage t req parsedBody) = Some 403%Z
     ↔ _sseResponse t = true ∧ validateRequestHeaders t (headers req) ≠ None) ∧
  (ending (handlePostMessage t req parsedBody) = Pending
     ↔ _sseResponse t = true ∧ validateRequestHeaders t (headers req) = None
       ∧ read_body req parsedBody = None) ∧
  (ending (handlePostMessage t req parsedBody) = Pending →
     post_log (handlePostMessage t req parsedBody) = [] ∧
     callbacks (handlePostMessage t req parsedBody) = []) ∧
  (ending (handlePostMessage t req parsedBody) ≠ Pending →
     ∃ (status : Z) (text : string),
       post_log (handlePostMessage t req parsedBody)
         = [WriteHead status []; End (Some text)] ∧
       status ∈ [500; 403; 400; 202]%Z).
Proof.
  assert (Hin : ∀ status : Z,
             In status [500; 403; 400; 202]%Z → status ∈ [500; 403; 400; 202]%Z)
    by (intros status; apply list_elem_of_In).
  pose proof (handlePostMessage_shape t req parsedBody) as Hshape.
  destruct Hshape as [(Hopen & text & c & ->)
                     |[(Hopen & Hv & text & cbs & ->)
                      |[(Hopen & Hv & Hb & ->)
                       |(Hopen & Hv & Hb & status & text & cbs & Hs & ->)]]];
    cbn; rewrite ?Hopen, ?Hv, ?Hb.
  all: repeat split; try done; try (by intros [? ?]); try (by intros [_ [? ?]]);
    try (by intros [_ [_ ?]]); try (by intros ?); try (intros [=]; lia);
    try (simplify_eq; lia);
    try (intros _; do 2 eexists; (split; [done|]); apply Hin; cbn; lia).
Qed.

End SSEServerFurther.

Section SSEServerBodies.
Import SSEServer.
Context `{Platform}.

(** X3. With a pre-parsed body the body of the request is never read: the call
    settles, and two requests with the same headers and principal are
    handled alike, whatever their [text] and [on] would deliver. The size
    bound, which sits on the two reading paths, is not applied. *)
Theorem handlePostMessage_parsed_body_not_read (t : SSEServerTransport)
    (req req' : RequestLike) (body : body_value) :
  headers req = headers req' →
  auth req = auth req' →
  ending (handlePostMessage t req (Some body)) ≠ Pending ∧
  handlePostMessage t req (Some body) = handlePostMessage t req' (Some body).
Proof.
  intros Hh Ha. split.
  - unfold handlePostMessage, read_body, handleMessage.
    destruct (_sseResponse t); cbn; [|done].
    destruct (validateRequestHeaders t (headers req)); cbn; [done|].
    destruct (contentType_parse _) as [?|ct]; cbn; [done|].
    destruct (negb _); cbn; [done|].
    destruct body as [s|v]; [destruct (JSON_parse s) as [?|v]|]; cbn; try done;
      by destruct (JSONRPCMessageSchema_parse v).
  - unfold handlePostMessage, read_body. rewrite <- Hh, <- Ha.
    destruct (_sseResponse t); cbn; [|done].
    destruct (validateRequestHeaders t (headers req)); cbn; [done|].
    destruct (contentType_parse _) as [?|ct]; cbn; [done|].
    by destruct (negb _).
Qed.

Lemma length_of_concat (chunks : list string) :
  length_of (String.concat "" chunks) = foldr (λ c n, (length_of c + n)%Z) 0%Z chunks.
Proof.
  induction chunks as [|c [|c' rest] IH]; [done| |].
  - cbn. lia.
  - change (String.concat "" (c :: c' :: rest))
      with (c ++ "" ++ String.concat "" (c' :: rest)).
    change ("" ++ String.concat "" (c' :: rest)) with (String.concat "" (c' :: rest)).
    rewrite length_of_app, IH. reflexivity.
Qed.

(** The [data] listener on a run of chunks followed by [end]: the promise
    rejects when the bytes received so far, together with the chunks, exceed
    the bound, and resolves with every chunk kept otherwise. *)
Lemma read_node_body_chunks (chunks : list string) (rest : list node_event) :
  ∀ (totalLength : Z) (kept : list string),
    (totalLength ≤ MAXIMUM_MESSAGE_SIZE)%Z →
    read_node_body ((Data <$> chunks) ++ EndEvent :: rest) totalLength kept =
      if (MAXIMUM_MESSAGE_SIZE <? totalLength + length_of (String.concat "" chunks))%Z
      then Some (inl (new_Error "Request body too large"))
      else Some (inr (kept ++ chunks)%list).
Proof.
  induction chunks as [|chunk chunks IH]; intros total kept Hle.
  - cbn [fmap list_fmap app read_node_body String.concat].
    change (length_of "") with 0%Z. rewrite Z.add_0_r, app_nil_r.
    by destruct (Z.ltb_spec MAXIMUM_MESSAGE_SIZE total); [lia|].
  - rewrite fmap_cons. cbn [app read_node_body].
    assert (Hlen : length_of (String.concat "" (chunk :: chunks))
                   = (length_of chunk + length_of (String.concat "" chunks))%Z)
      by (by rewrite !length_of_concat).
    rewrite Hlen.
    pose proof (length_of_nonneg (String.concat "" chunks)) as Hnn.
    destruct (Z.ltb_spec MAXIMUM_MESSAGE_SIZE (total + length_of chunk)) as [Hc|Hc].
    + by destruct (Z.ltb_spec MAXIMUM_MESSAGE_SIZE
                     (total + (length_of chunk + length_of (String.concat "" chunks))));
        [|lia].
    + rewrite IH by done. rewrite Z.add_assoc, <- app_assoc. reflexivity.
Qed.


(** X5. How the body of a Node-style request is cut into chunks does not matter:
    two such requests with the same headers and principal, whose chunks
    concatenate to the same bytes before [end], are handled alike. *)
Theorem handlePostMessage_chunking_independent (t : SSEServerTransport)
    (req req' : RequestLike) (chunks chunks' : list string)
    (rest rest' : list node_event) :
  headers req = headers req' →
  auth req = auth req' →
  text req = None →
  text req' = None →
  on req = Some ((Data <$> chunks) ++ EndEvent :: rest)%list →
  on req' = Some ((Data <$> chunks') ++ EndEvent :: rest')%list →
  String.concat "" chunks = String.concat "" chunks' →
  handlePostMessage t req None = handlePostMessage t req' None.
Proof.
  intros Hh Ha Ht Ht' Hon Hon' Hcat.
  assert (Hbody : read_body req None = read_body req' None).
  { unfold read_body. rewrite <- Hh, Ht, Ht', Hon, Hon'.
    destruct (contentType_parse _) as [?|ct]; [done|].
    destruct (negb _); [done|].
    rewrite !read_node_body_chunks by done. rewrite Hcat.
    destruct (MAXIMUM_MESSAGE_SIZE <? _)%Z; [done|].
    cbn [app]. by rewrite Hcat. }
  unfold handlePostMessage. by rewrite <- Hh, <- Ha, Hbody.
Qed.

End SSEServerBodies.

Section SSEServerLifetime.
Import SSEServer.
Context `{Platform}.

Lemma step_configuration (t : SSEServerTransport) (o : op) :
  _sessionId (after (step t o)) = _sessionId t ∧
  _endpoint (after (step t o)) = _endpoint t ∧
  _options (after (step t o)) = _options t.
Proof.
  destruct o as [| | |m|req parsedBody]; cbn [step].
  - unfold start. destruct (_sseResponse t); [done|].
    by destruct (URL_new _ _).
  - done.
  - unfold on_res_close. by destruct (close_listeners t).
  - unfold send. by destruct (negb _).
  - destruct (handlePostMessage_shape t req parsedBody)
      as [(_ & ? & ? & ->)|[(_ & _ & ? & ? & ->)|[(_ & _ & _ & ->)
         |(_ & _ & _ & ? & ? & ? & _ & ->)]]]; done.
Qed.

Lemma run_options (ops : list op) (t : SSEServerTransport) :
  _options (fst (run t ops)) = _options t.
Proof.
  revert t. induction ops as [|o ops IH]; intros t; [done|].
  cbn [run]. specialize (IH (after (step t o))).
  destruct (run (after (step t o)) ops) as [t' cbs]. cbn [fst] in *.
  destruct (step_configuration t o) as (_ & _ & Ho). congruence.
Qed.

(** X6. The session id, the endpoint and the options of a transport are fixed at
    construction: whatever calls and events follow, in any order, the getter
    [sessionId] returns the id that the constructor generated, so a POST that
    is routed by it reaches the same transport for the whole of its life. *)
Theorem run_keeps_session (ops : list op) (t : SSEServerTransport) :
  sessionId (fst (run t ops)) = sessionId t ∧
  _endpoint (fst (run t ops)) = _endpoint t ∧
  _options (fst (run t ops)) = _options t.
Proof.
  revert t. induction ops as [|o ops IH]; intros t; [done|].
  cbn [run]. specialize (IH (after (step t o))).
  destruct (run (after (step t o)) ops) as [t' cbs]. cbn [fst] in *.
  destruct (step_configuration t o) as (Hs & He & Ho).
  unfold sessionId in *. destruct IH as (-> & -> & ->). done.
Qed.

(** X7. Header validation is opt-in for the whole life of the transport: when
    [enableDnsRebindingProtection] is false or unset, as it is when the
    constructor gets no options, no POST is ever answered 403, whatever its
    headers, whatever allow-lists are configured and whatever happened to the
    transport before. *)
Theorem protection_off_never_403 (t : SSEServerTransport) (ops : list op)
    (req : RequestLike) (parsedBody : option body_value) :
  default false (enableDnsRebindingProtection (_options t)) = false →
  answered (handlePostMessage (fst (run t ops)) req parsedBody) ≠ Some 403%Z.
Proof.
  intros Hoff Hanswer.
  pose proof (run_options ops t) as Hopts.
  destruct (handlePostMessage_shape (fst (run t ops)) req parsedBody)
    as [(_ & ? & ? & He)|[(_ & Hv & _)|[(_ & _ & _ & He)
       |(_ & _ & _ & status & ? & ? & Hs & He)]]];
    try (rewrite He in Hanswer; cbn in Hanswer; simplify_eq; lia).
  apply Hv. unfold validateRequestHeaders. by rewrite Hopts, Hoff.
Qed.

Lemma is_hex_hex_digit (v : Z) : is_hex (hex_digit v) = true.
Proof.
  destruct v as [|p|p]; [done| |done].
  do 4 (destruct p as [p|p|]; try done).
Qed.

Lemma is_variant_hex_digit (r : Z) :
  let d := hex_digit (Z.lor (Z.land r 3) 8) in
  Ascii.eqb d "8" || Ascii.eqb d "9" || Ascii.eqb d "a" || Ascii.eqb d "b" = true.
Proof.
  cbn zeta. pose proof (variant_digit r) as Hd.
  apply list_elem_of_In in Hd. cbn [In] in Hd.
  destruct Hd as [<- | [<- | [<- | [<- | []]]]]; reflexivity.
Qed.

(** X8. Without [crypto.randomUUID] the session id is still a well-formed
    version-4 UUID, whatever the random source returns: 36 characters,
    hyphens after the groups of 8, 4, 4 and 4, the version digit 4, a
    variant digit among 8, 9, a and b, and lower-case hexadecimal digits
    everywhere else. *)
Theorem generateSessionId_fallback_is_uuid_v4 (random16 : nat → Z) :
  uuid_v4_shape (generateSessionId None random16) = true.
Proof.
  unfold generateSessionId, uuid_v4_shape.
  cbn [replace_xy Ascii.eqb Bool.eqb uuid_v4_from Nat.eqb orb andb].
  rewrite !is_hex_hex_digit.
  pose proof (is_variant_hex_digit (random16 15%nat)) as Hv. cbn zeta in Hv.
  rewrite Hv. reflexivity.
Qed.

End SSEServerLifetime.

(** *** The SSE server transport on concrete requests *)

Section SSEServerFurtherExamples.
Import SSEServer.

Lemma handlePostMessage_parsed_body_not_read_witness :
  ending (handlePostMessage (open_server lenient_options)
            (json_post "localhost:3000" "https://a" big_body)
            (Some (BodyString ping))) ≠ Pending ∧
  handlePostMessage (open_server lenient_options)
      (json_post "localhost:3000" "https://a" big_body) (Some (BodyString ping)) =
    handlePostMessage (open_server lenient_options)
      (json_post "localhost:3000" "https://a" ping) (Some (BodyString ping)).
Proof.
  apply (handlePostMessage_parsed_body_not_read (H := toy_platform)
           (open_server lenient_options)
           (json_post "localhost:3000" "https://a" big_body)
           (json_post "localhost:3000" "https://a" ping)
           (BodyString ping)); reflexivity.
Defined.

(** A pre-parsed body goes through although the body of the request itself
    is over the bound. *)
Example parsed_body_skips_the_bound :
  post_log (handlePostMessage (open_server lenient_options)
              (json_post "localhost:3000" "https://a" big_body)
              (Some (BodyString ping)))
    = [WriteHead 202 []; End (Some "Accepted")].
Proof. reflexivity. Qed.


Lemma handlePostMessage_chunking_independent_witness :
  handlePostMessage (open_server lenient_options)
      (node_post ["{jsonrpc:2.0,"; "method:ping}"]) None =
    handlePostMessage (open_server lenient_options)
      (node_post ["{json"; "rpc:2.0,method:"; "ping}"]) None.
Proof.
  apply (handlePostMessage_chunking_independent (H := toy_platform)
           (open_server lenient_options)
           (node_post ["{jsonrpc:2.0,"; "method:ping}"])
           (node_post ["{json"; "rpc:2.0,method:"; "ping}"])
           ["{jsonrpc:2.0,"; "method:ping}"] ["{json"; "rpc:2.0,method:"; "ping}"]
           [] []); reflexivity.
Defined.

Lemma protection_off_never_403_witness :
  answered (handlePostMessage
              (fst (run (fresh_server lenient_options) [CallStart]))
              (json_post "evil.example" "https://evil.example" ping) None)
    ≠ Some 403%Z.
Proof.
  apply (protection_off_never_403 (H := toy_platform)
           (fresh_server lenient_options) [CallStart]
           (json_post "evil.example" "https://evil.example" ping) None).
  reflexivity.
Defined.

End SSEServerFurtherExamples.

(** ** server/stdio.ts and client/stdio.ts: the stdio transports *)

Section StdioFurther.
Import ReadBuffer.
Context `{Platform}.

Lemma append_empty_r (s : string) : s ++ "" = s.
Proof.
  induction s as [|c s IH]; [reflexivity|].
  change (String c s ++ "") with (String c (s ++ "")). by rewrite IH.
Qed.

Lemma append_assoc_string (a b c : string) : (a ++ b) ++ c = a ++ b ++ c.
Proof.
  induction a as [|x a IH]; [reflexivity|].
  change (String x ((a ++ b) ++ c) = String x (a ++ b ++ c)). by rewrite IH.
Qed.

Lemma concat_cons (chunk : string) (rest : list string) :
  String.concat "" (chunk :: rest) = chunk ++ String.concat "" rest.
Proof.
  destruct rest as [|r rest]; cbn [String.concat].
  - by rewrite append_empty_r.
  - reflexivity.
Qed.

(** One [data] event on the server: the lines completed by the chunk are
    delivered, the rest stays buffered, nothing else changes. *)
Lemma _ondata_lines (t : StdioServer.StdioServerTransport) (chunk : string) :
  StdioServer._ondata t chunk =
    Some ({| StdioServer._readBuffer :=
               snd (split_lines (StdioServer._readBuffer t ++ chunk));
             StdioServer._started := StdioServer._started t;
             StdioServer._stdin := StdioServer._stdin t |},
          deliver <$> fst (split_lines (StdioServer._readBuffer t ++ chunk))).
Proof.
  unfold StdioServer._ondata, append. by rewrite processReadBuffer_lines.
Qed.

(** A run of [data] events on the server, with the state it leaves. *)
Lemma stdio_server_feed_lines
    (t : StdioServer.StdioServerTransport) (chunks : list string) :
  no_LF (StdioServer._readBuffer t) = true →
  StdioServer.feed t chunks =
    Some ({| StdioServer._readBuffer :=
               snd (split_lines (StdioServer._readBuffer t ++ String.concat "" chunks));
             StdioServer._started := StdioServer._started t;
             StdioServer._stdin := StdioServer._stdin t |},
          deliver <$> fst (split_lines (StdioServer._readBuffer t
                                        ++ String.concat "" chunks))).
Proof.
  revert t. induction chunks as [|chunk rest IH]; intros t Hbuf.
  - cbn [StdioServer.feed String.concat].
    rewrite append_empty_r, split_lines_partial by done. by destruct t.
  - cbn [StdioServer.feed]. rewrite _ondata_lines, IH
      by apply no_LF_snd_split_lines.
    cbn [StdioServer._readBuffer StdioServer._started StdioServer._stdin].
    rewrite concat_cons, <- append_assoc_string.
    rewrite (split_lines_app (StdioServer._readBuffer t ++ chunk)
               (String.concat "" rest)).
    cbn [fst snd]. by rewrite fmap_app.
Qed.

(** X9. Server side of stdio: where the stream is cut into chunks does not
    matter. A run of [data] events delivers exactly the complete lines of
    the bytes received, buffered bytes first, in order, each line as its
    message or as its error, and keeps the unfinished line in the buffer;
    nothing else of the transport changes. So two runs of chunks with the
    same concatenation invoke the same callbacks and leave the same
    transport. *)
Theorem stdio_server_chunking_independent
    (t : StdioServer.StdioServerTransport) (chunks chunks' : list string) :
  no_LF (StdioServer._readBuffer t) = true →
  String.concat "" chunks = String.concat "" chunks' →
  StdioServer.feed t chunks = StdioServer.feed t chunks' ∧
  StdioServer.feed t chunks =
    Some ({| StdioServer._readBuffer :=
               snd (split_lines (StdioServer._readBuffer t ++ String.concat "" chunks));
             StdioServer._started := StdioServer._started t;
             StdioServer._stdin := StdioServer._stdin t |},
          deliver <$> fst (split_lines (StdioServer._readBuffer t
                                        ++ String.concat "" chunks))).
Proof.
  intros Hbuf Hcat.
  rewrite (stdio_server_feed_lines t chunks Hbuf).
  rewrite (stdio_server_feed_lines t chunks' Hbuf).
  rewrite Hcat. split; reflexivity.
Qed.

(** A started transport that has been closed keeps its three marks: started,
    no listener on stdin, empty buffer. *)
Lemma stdio_server_closed_run (ops : list StdioServer.op) :
  ∀ t : StdioServer.StdioServerTransport,
    StdioServer._started t = true →
    StdioServer.own_listeners (StdioServer._stdin t) = false →
    StdioServer._readBuffer t = "" →
    ∃ (t' : StdioServer.StdioServerTransport) (cbs : list callback),
      StdioServer.run t ops = Some (t', cbs) ∧
      (∀ c : callback, c ∈ cbs → c = OnClose) ∧
      StdioServer._started t' = true ∧
      StdioServer.own_listeners (StdioServer._stdin t') = false ∧
      StdioServer._readBuffer t' = "".
Proof.
  induction ops as [|o ops IH]; intros t Hs Hl Hb.
  - exists t, []. repeat split; try done. by intros c ?%elem_of_nil.
  - cbn [StdioServer.run].
    destruct o as [| |chunk|e]; cbn [StdioServer.step].
    + unfold StdioServer.start. rewrite Hs.
      destruct (IH t Hs Hl Hb) as (t' & cbs & -> & ?). by exists t', cbs.
    + cbn [StdioServer.close].
      edestruct (IH (StdioServer.close t).1) as (t' & cbs & Hrun & Hc & ?);
        [done..|].
      cbn [StdioServer.close fst] in Hrun. rewrite Hrun.
      exists t', (OnClose :: cbs). repeat split; try tauto.
      intros c [->|?]%elem_of_cons; [done|by apply Hc].
    + rewrite Hl. destruct (IH t Hs Hl Hb) as (t' & cbs & -> & ?). by exists t', cbs.
    + rewrite Hl. destruct (IH t Hs Hl Hb) as (t' & cbs & -> & ?). by exists t', cbs.
Qed.

(** X10. Server side of stdio: [close()] is final. Once a started transport is
    closed, no input reaches its callbacks any more: whatever [data] and
    [error] events stdin emits and whatever methods are called, the only
    callback ever invoked again is [onclose] (by a further [close()]), the
    buffer stays empty, and every later [start()] throws, since [_started]
    is never reset. *)
Theorem stdio_server_close_is_final (t : StdioServer.StdioServerTransport)
    (ops : list StdioServer.op) :
  StdioServer._started t = true →
  ∃ (t' : StdioServer.StdioServerTransport) (cbs : list callback),
    StdioServer.run (fst (StdioServer.close t)) ops = Some (t', cbs) ∧
    (∀ c : callback, c ∈ cbs → c = OnClose) ∧
    StdioServer._readBuffer t' = "" ∧
    StdioServer.start t' =
      inl (new_Error "StdioServerTransport already started! If using Server class, note that connect() calls start() automatically.").
Proof.
  intros Hs.
  destruct (stdio_server_closed_run ops (fst (StdioServer.close t)))
    as (t' & cbs & Hrun & Hc & Hs' & _ & Hb'); [done..|].
  exists t', cbs. repeat split; try done.
  unfold StdioServer.start. by rewrite Hs'.
Qed.

(** The same for the listener of the child's stdout. *)
Lemma stdio_client_stdout_lines (chunks : list string) :
  ∀ t : StdioClient.StdioClientTransport,
    no_LF (StdioClient._readBuffer t) = true →
    StdioClient.run t (StdioClient.StdoutData <$> chunks) =
      Some ({| StdioClient._process := StdioClient._process t;
               StdioClient._serverParams := StdioClient._serverParams t;
               StdioClient._aborted := StdioClient._aborted t;
               StdioClient._readBuffer :=
                 snd (split_lines (StdioClient._readBuffer t
                                   ++ String.concat "" chunks)) |},
            deliver <$> fst (split_lines (StdioClient._readBuffer t
                                          ++ String.concat "" chunks))).
Proof.
  induction chunks as [|chunk rest IH]; intros t Hbuf.
  - cbn [fmap list_fmap StdioClient.run String.concat].
    rewrite append_empty_r, split_lines_partial by done. by destruct t.
  - rewrite fmap_cons. cbn [StdioClient.run StdioClient.step].
    unfold StdioClient.on_stdout_data, append at 1.
    rewrite processReadBuffer_lines, IH by apply no_LF_snd_split_lines.
    cbn [StdioClient._readBuffer StdioClient._process StdioClient._serverParams
         StdioClient._aborted].
    rewrite concat_cons, <- append_assoc_string.
    rewrite (split_lines_app (StdioClient._readBuffer t ++ chunk)
               (String.concat "" rest)).
    cbn [fst snd]. by rewrite fmap_app.
Qed.

(** The lines of what a run of [send] calls writes. *)
Lemma split_lines_written (messages : list (JSONRPCMessage * bool)) :
  (∀ (m : JSONRPCMessage) (a : bool),
     (m, a) ∈ messages → no_LF (JSON_stringify (message_value m)) = true) →
  split_lines (StdioServer.written messages) =
    ((λ ma, JSON_stringify (message_value ma.1)) <$> messages, "").
Proof.
  induction messages as [|[m a] rest IH]; intros Hmsgs; [reflexivity|].
  cbn [StdioServer.written StdioServer.send fst]. unfold serializeMessage.
  rewrite append_assoc_string, split_lines_line, IH.
  - reflexivity.
  - intros m' a' Hin. apply (Hmsgs m' a'). by apply list_elem_of_further.
  - apply (Hmsgs m a). apply list_elem_of_here.
Qed.

Lemma client_written (t : StdioClient.StdioClientTransport)
    (child : StdioClient.ChildProcess) (messages : list (JSONRPCMessage * bool)) :
  StdioClient._process t = Some child →
  StdioClient.has_stdin child = true →
  StdioClient.written t messages = Some (StdioServer.written messages).
Proof.
  intros Hp Hin. induction messages as [|[m a] rest IH]; [reflexivity|].
  cbn [StdioClient.written StdioServer.written]. unfold StdioClient.send.
  by rewrite Hp, Hin, IH.
Qed.

Lemma deliver_written (messages : list (JSONRPCMessage * bool)) :
  (∀ (m : JSONRPCMessage) (a : bool),
     (m, a) ∈ messages →
     deserializeMessage (JSON_stringify (message_value m)) = inr m) →
  deliver <$> ((λ ma, JSON_stringify (message_value ma.1)) <$> messages) =
    (λ ma, OnMessage ma.1 None) <$> messages.
Proof.
  induction messages as [|[m a] rest IH]; intros Hmsgs; [reflexivity|].
  rewrite !fmap_cons, IH.
  - unfold deliver at 1. cbn [fst]. rewrite (Hmsgs m a); [done|].
    apply list_elem_of_here.
  - intros m' a' Hin. apply (Hmsgs m' a'). by apply list_elem_of_further.
Qed.

(** X11. The two stdio transports speak the same framing. Take messages whose
    JSON text holds no line feed and decodes back to the message. What a
    connected client's [send] calls write to the child's stdin, a server
    transport with an empty buffer turns into exactly those messages, one
    [onmessage] each, in order, with no [onerror] and nothing left in the
    buffer, however the bytes are cut into chunks on the way; and so does a
    client transport with what the server's [send] calls write to stdout. *)
Theorem stdio_round_trip (messages : list (JSONRPCMessage * bool)) :
  (∀ (m : JSONRPCMessage) (a : bool),
     (m, a) ∈ messages →
     no_LF (JSON_stringify (message_value m)) = true ∧
     deserializeMessage (JSON_stringify (message_value m)) = inr m) →
  (∀ (client : StdioClient.StdioClientTransport) (child : StdioClient.ChildProcess)
     (server : StdioServer.StdioServerTransport) (chunks : list string),
     StdioClient._process client = Some child →
     StdioClient.has_stdin child = true →
     StdioServer._readBuffer server = "" →
     StdioClient.written client messages = Some (String.concat "" chunks) →
     StdioServer.feed server chunks =
       Some (server, (λ ma, OnMessage ma.1 None) <$> messages)) ∧
  (∀ (client : StdioClient.StdioClientTransport) (chunks : list string),
     StdioClient._readBuffer client = "" →
     String.concat "" chunks = StdioServer.written messages →
     StdioClient.run client (StdioClient.StdoutData <$> chunks) =
       Some (client, (λ ma, OnMessage ma.1 None) <$> messages)).
Proof.
  intros Hmsgs.
  assert (Hsplit := split_lines_written messages
                      (λ m a Hin, proj1 (Hmsgs m a Hin))).
  assert (Hdeliver := deliver_written messages
                        (λ m a Hin, proj2 (Hmsgs m a Hin))).
  split.
  - intros client child server chunks Hp Hin Hbuf Hw.
    rewrite (client_written client child messages Hp Hin) in Hw.
    injection Hw as Hw.
    assert (Hfeed : StdioServer.feed server chunks = _)
      by (apply stdio_server_feed_lines; by rewrite Hbuf).
    rewrite Hfeed, Hbuf.
    change ("" ++ String.concat "" chunks) with (String.concat "" chunks).
    rewrite <- Hw, Hsplit. cbn [fst snd]. rewrite Hdeliver, <- Hbuf.
    by destruct server.
  - intros client chunks Hbuf Hw.
    rewrite stdio_client_stdout_lines by (by rewrite Hbuf).
    rewrite Hbuf.
    change ("" ++ String.concat "" chunks) with (String.concat "" chunks).
    rewrite Hw, Hsplit. cbn [fst snd]. rewrite Hdeliver, <- Hbuf.
    by destruct client.
Qed.

(** Client side of stdio: the abort controller is made once, with the
    transport, and [close()] aborts it. *)
Lemma stdio_client_aborted_run (ops : list StdioClient.op) :
  ∀ t : StdioClient.StdioClientTransport,
    ∃ (t' : StdioClient.StdioClientTransport) (cbs : list callback),
      StdioClient.run t ops = Some (t', cbs) ∧
      (StdioClient._aborted t = true → StdioClient._aborted t' = true).
Proof.
  induction ops as [|o ops IH]; intros t; [by exists t, []|].
  cbn [StdioClient.run].
  assert (Hstep : ∃ t1 cbs1, StdioClient.step t o = Some (t1, cbs1) ∧
            (StdioClient._aborted t = true → StdioClient._aborted t1 = true)).
  { destruct o as [process cross_spawn child| |chunk|e|]; cbn [StdioClient.step].
    - unfold StdioClient.start. destruct (StdioClient._process t);
        [by exists t, []|].
      destruct cross_spawn; cbn [negb]; [|by exists t, []].
      by do 2 eexists.
    - by do 2 eexists.
    - unfold StdioClient.on_stdout_data. rewrite processReadBuffer_lines.
      by do 2 eexists.
    - unfold StdioClient.on_process_error. destruct (String.eqb _ _);
        by do 2 eexists.
    - by do 2 eexists. }
  destruct Hstep as (t1 & cbs1 & -> & H1).
  destruct (IH t1) as (t' & cbs & -> & H2).
  exists t', (cbs1 ++ cbs)%list. split; [done|]. intros Ha. by apply H2, H1.
Qed.

(** X12. Client side of stdio: [close()] is final. Right after it the transport
    has no child ([pid] is null, [send] rejects with "Not connected") and an
    empty buffer; and since the abort controller is never replaced, whatever
    happens afterwards, every later [start()] hands [spawn] a signal that is
    already aborted. *)
Theorem stdio_client_close_is_final (t : StdioClient.StdioClientTransport)
    (ops : list StdioClient.op) :
  StdioClient.get_pid (fst (StdioClient.close t)) = None ∧
  StdioClient._readBuffer (fst (StdioClient.close t)) = "" ∧
  (∀ (message : JSONRPCMessage) (accepted : bool),
     StdioClient.send (fst (StdioClient.close t)) message accepted
       = inl (new_Error "Not connected")) ∧
  ∃ (t' : StdioClient.StdioClientTransport) (cbs : list callback),
    StdioClient.run (fst (StdioClient.close t)) ops = Some (t', cbs) ∧
    StdioClient.spawn_signal_aborted t' = true.
Proof.
  repeat split.
  destruct (stdio_client_aborted_run ops (fst (StdioClient.close t)))
    as (t' & cbs & Hrun & Ha).
  exists t', cbs. split; [done|]. by apply Ha.
Qed.

End StdioFurther.

Section StdioClientEnvFurther.
Import StdioClient.

(** X13. The environment of the spawned child, entry by entry: a variable has a
    value there exactly when the caller's [env] gives it that value, or the
    caller's [env] does not mention it, it is named in
    [DEFAULT_INHERITED_ENV_VARS], and the parent's environment gives it that
    value, which does not start with "()". Nothing else of the parent's
    environment reaches the child. *)
Theorem child_env_only_allow_listed (process : option process_t)
    (cross_spawn : bool) (child : ChildProcess) (t : StdioClientTransport)
    (cenv : gmap string string) :
  child_env process cross_spawn child t = Some cenv →
  ∀ k v : string,
    cenv !! k = Some v ↔
      default ∅ (params_env (_serverParams t)) !! k = Some v
      ∨ (default ∅ (params_env (_serverParams t)) !! k = None ∧
         isNode process = true ∧
         k ∈ DEFAULT_INHERITED_ENV_VARS process ∧
         processEnv process !! k = Some v ∧
         startsWith v "()" = false).
Proof.
  unfold child_env, start.
  destruct (_process t); [done|].
  destruct cross_spawn; cbn [negb]; [|done].
  intros [= <-] k v. cbn [spawn_env]. unfold merged_env.
  rewrite lookup_union_Some_raw, lookup_getDefaultEnvironment. done.
Qed.

Lemma child_env_only_allow_listed_witness :
  merged_env posix_process pwned_params !! "PATH" = Some "/usr/bin" ↔
    default ∅ (params_env (_serverParams pwned_transport)) !! "PATH"
      = Some "/usr/bin"
    ∨ (default ∅ (params_env (_serverParams pwned_transport)) !! "PATH" = None ∧
       isNode posix_process = true ∧
       "PATH" ∈ DEFAULT_INHERITED_ENV_VARS posix_process ∧
       processEnv posix_process !! "PATH" = Some "/usr/bin" ∧
       startsWith "/usr/bin" "()" = false).
Proof.
  apply (child_env_only_allow_listed posix_process true a_child pwned_transport).
  reflexivity.
Defined.

(** The parent's [SECRET] is in no allow-list and is not overridden: the
    child does not get it. *)
Example child_env_drops_secret :
  merged_env posix_process pwned_params !! "SECRET" = None.
Proof. reflexivity. Qed.

End StdioClientEnvFurther.

(** ** client/sse.ts: the SSE client transport *)

Section SSEClientFurther.
Import SSEClient.
Context `{Platform}.

(** *** Connecting *)

(** What [_startStream] leaves behind, however it ends. *)
Lemma _startStream_ends (fetches : list fetch_outcome) :
  ∀ (t : SSEClientTransport) (auths : list auth_outcome),
    _endpoint (_startStream t fetches auths).1.1 = None ∧
    forallb (λ o, negb (is_settlement o)) (_startStream t fetches auths).1.2 = true ∧
    ((_startStream t fetches auths).2 ≠ Connected →
     _reader (_startStream t fetches auths).1.1 = _reader t) ∧
    (∀ e : Error,
       (_startStream t fetches auths).2 = ConnectFailed e →
       _abortController (_startStream t fetches auths).1.1 = false ∧
       ((last (_startStream t fetches auths).1.2 = Some (Callback (OnError e)) ∧
         count is_error (_startStream t fetches auths).1.2 = 1%nat)
        ∨ (e = UnauthorizedError None ∧
           last (_startStream t fetches auths).1.2 = Some AuthCalled ∧
           count is_error (_startStream t fetches auths).1.2 = 0%nat))).
Proof.
  induction fetches as [|[e|response] fetches IH]; intros t auths;
    cbn [_startStream].
  - split_and!; try done.
  - split_and!; try done. intros e' [= <-]. split; [done|]. by left.
  - assert (Hrec : ∀ t0 : SSEClientTransport,
              _reader t0 = _reader t →
              ∀ auths' : list auth_outcome,
                let r := _startStream t0 fetches auths' in
                let get := Fetched "GET" (href (_url t0)) None in
                _endpoint r.1.1 = None ∧
                forallb (λ o, negb (is_settlement o)) (get :: AuthCalled :: r.1.2) = true ∧
                (r.2 ≠ Connected → _reader r.1.1 = _reader t) ∧
                (∀ e : Error,
                   r.2 = ConnectFailed e →
                   _abortController r.1.1 = false ∧
                   ((last (get :: AuthCalled :: r.1.2) = Some (Callback (OnError e)) ∧
                     count is_error (get :: AuthCalled :: r.1.2) = 1%nat)
                    ∨ (e = UnauthorizedError None ∧
                       last (get :: AuthCalled :: r.1.2) = Some AuthCalled ∧
                       count is_error (get :: AuthCalled :: r.1.2) = 0%nat)))).
    { intros t0 Hr auths'. cbn zeta.
      destruct (IH t0 auths') as (He & Hq & Hrd & Hf).
      destruct (_startStream t0 fetches auths') as [[t'' obs] c].
      cbn [fst snd] in *. rewrite <- Hr.
      split_and!; try done.
      intros e Hc. destruct (Hf e Hc) as [Ha [[Hl Hn]|(-> & Hl & Hn)]];
        (split; [done|]); [left|right];
        split_and!; try done; rewrite !last_cons, Hl; done. }
    destruct (status response =? 401)%Z.
    + cbn [andb].
      destruct (www_authenticate response);
        cbn [_authProvider set_abortController set_resourceMetadataUrl set_endpoint
             set_didEmitClose];
        (destruct (_authProvider t);
         [destruct auths as [|[e|[|]] auths]|]);
        try (split_and!; try done; intros e' [= <-]; (split; [done|]);
             first [by left | by right]).
      all: match goal with |- context [_startStream ?t' ?f ?a] =>
             specialize (Hrec t' eq_refl a); cbn zeta in Hrec;
             destruct (_startStream t' f a) as [[t'' obs] c]
           end; exact Hrec.
    + cbn [andb]. destruct (negb (ok response)).
      * split_and!; try done. intros e' [= <-]. split; [done|]. by left.
      * destruct (negb (has_body response)).
        -- split_and!; try done. intros e' [= <-]. split; [done|]. by left.
        -- split_and!; try done.
Qed.


Lemma ok_not_401 (response : Response) :
  ok response = true → (status response =? 401)%Z = false.
Proof. unfold ok. intros [? ?]%andb_prop. lia. Qed.

(** X15. Connecting has no bound on re-authentication: with an auth provider,
    each 401 is followed by a call of [auth] and, when that returns
    AUTHORIZED, by a new GET; [n] such answers in a row and then a good
    response connect the stream after [n] calls of [auth] and [n + 1]
    requests, with no [onerror]. *)
Theorem connect_reauthenticates_every_401 (n : nat) (unauthorized good : Response) :
  status unauthorized = 401%Z →
  ok good = true →
  has_body good = true →
  ∀ t : SSEClientTransport,
    _authProvider t = true →
    (_startStream t (repeat (FetchReturns unauthorized) n ++ [FetchReturns good])
       (repeat (AuthReturns AUTHORIZED) n)).2 = Connected ∧
    count is_auth
      (_startStream t (repeat (FetchReturns unauthorized) n ++ [FetchReturns good])
         (repeat (AuthReturns AUTHORIZED) n)).1.2 = n ∧
    count is_get
      (_startStream t (repeat (FetchReturns unauthorized) n ++ [FetchReturns good])
         (repeat (AuthReturns AUTHORIZED) n)).1.2 = S n ∧
    count is_error
      (_startStream t (repeat (FetchReturns unauthorized) n ++ [FetchReturns good])
         (repeat (AuthReturns AUTHORIZED) n)).1.2 = 0%nat.
Proof.
  intros Hs Hok Hbody. induction n as [|n IH]; intros t Hp.
  - cbn [repeat app _startStream]. rewrite (ok_not_401 good Hok), Hok, Hbody.
    cbn. done.
  - cbn [repeat app _startStream]. rewrite Hs. cbn [Z.eqb Pos.eqb andb].
    destruct (www_authenticate unauthorized);
      cbn [_authProvider set_abortController set_resourceMetadataUrl set_endpoint
           set_didEmitClose]; rewrite Hp;
      match goal with |- context [_startStream ?t' _ _] =>
        destruct (IH t' Hp) as (Hc & Ha & Hg & He);
        destruct (_startStream t' _ _) as [[t'' obs] c]
      end; cbn [fst snd] in *; unfold count in *; cbn; rewrite ?Ha, ?Hg, ?He; done.
Qed.

End SSEClientFurther.

Section SSEClientStream.
Import SSEClient.
Context `{Platform}.

(** *** The open stream *)

(** X16. Once [start()] has resolved, every event that is not an endpoint event
    is answered by exactly one callback, in the order of arrival:
    [onmessage] with the message when its data decodes, [onerror] with the
    decoding error when it does not. A decoding error does not end the
    loop: the stream is left exactly as it was and the events after it are
    still delivered. *)
Theorem stream_delivers_each_event (m : stream) (values : list EventSourceMessage) :
  resolved m = true →
  reading m = true →
  (∀ value : EventSourceMessage, value ∈ values → eventName value ≠ "endpoint") →
  stream_run m ((λ value, ReadSettles (ReadValue (Some value))) <$> values)
    = (m, deliver_data <$> values).
Proof.
  intros Hres Hread. induction values as [|value values IH]; intros Hev; [done|].
  rewrite !fmap_cons. cbn [stream_run stream_step]. rewrite Hread.
  cbn [process_read].
  assert (Hne : String.eqb (eventName value) "endpoint" = false).
  { apply String.eqb_neq, Hev, list_elem_of_here. }
  rewrite Hne, Hres. cbn [negb].
  assert (Hrest : ∀ v : EventSourceMessage, v ∈ values → eventName v ≠ "endpoint")
    by (intros v Hin; by apply Hev, list_elem_of_further).
  unfold deliver_data at 1.
  destruct (parse_data (data value)); by rewrite (IH Hrest).
Qed.

Lemma finish_closes (m : stream) (error : option Error) (was_aborted : bool) :
  (closes (snd (finish m error was_aborted))
     + close_budget (transport (fst (finish m error was_aborted))))%nat
    = close_budget (transport m) ∧
  closing (fst (finish m error was_aborted)) = closing m ∧
  _endpoint (transport (fst (finish m error was_aborted))) = _endpoint (transport m) ∧
  reading (fst (finish m error was_aborted)) = false ∧
  startable (transport (fst (finish m error was_aborted))) = true.
Proof.
  unfold finish. destruct (resolved m); cbn [negb]; [|done].
  destruct error as [e|]; [done|].
  unfold _emitClose, close_budget, closes.
  cbn [_didEmitClose set_abortController set_reader].
  destruct (_didEmitClose (transport m)) eqn:Hd; cbn; by rewrite ?Hd.
Qed.

(** One step of the stream: each [onclose] uses up the one the flag
    [_didEmitClose] allows; a read leaves the pending [close()] calls as
    they are; a [close()] either reports at once or waits; the end of a wait
    reports. *)
Lemma stream_step_closes (m : stream) (o : stream_op) :
  (closes (snd (stream_step m o))
     + close_budget (transport (fst (stream_step m o))))%nat
    = close_budget (transport m) ∧
  (is_read o = true → closing (fst (stream_step m o)) = closing m) ∧
  (o = CloseCalled →
   _didEmitClose (transport (fst (stream_step m o))) = true
   ∨ (0 < closing (fst (stream_step m o)))%nat) ∧
  (o = CancelSettles →
   ((0 < closing m)%nat → _didEmitClose (transport (fst (stream_step m o))) = true) ∧
   (closing m = 0%nat → fst (stream_step m o) = m)).
Proof.
  destruct o as [r| |]; cbn [stream_step is_read].
  - split_and!; try done.
    + destruct (reading m); [|done]. unfold process_read.
      destruct r as [[value|]| |e]; try done; try apply finish_closes;
        [|destruct (_ || _); apply finish_closes].
      destruct (String.eqb (eventName value) "endpoint").
      * destruct (URL_new _ _) as [endpoint|]; [|apply finish_closes].
        destruct (negb _).
        -- by rewrite (proj1 (finish_closes _ _ _)).
        -- unfold resolveOnce. by destruct (negb _).
      * destruct (negb (resolved m)); [done|]. by destruct (parse_data _).
    + intros _. destruct (reading m); [|done]. unfold process_read.
      destruct r as [[value|]| |e]; try done; try apply finish_closes;
        [|destruct (_ || _); apply finish_closes].
      destruct (String.eqb (eventName value) "endpoint").
      * destruct (URL_new _ _) as [endpoint|]; [|apply finish_closes].
        destruct (negb _).
        -- by rewrite (proj1 (proj2 (finish_closes _ _ _))).
        -- unfold resolveOnce. by destruct (negb _).
      * destruct (negb (resolved m)); [done|]. by destruct (parse_data _).
  - unfold close_begin, _emitClose, close_budget, closes.
    cbn [_reader _didEmitClose set_abortController].
    destruct (_reader (transport m)).
    + split_and!; try done. intros _. right. cbn. lia.
    + destruct (_didEmitClose (transport m)) eqn:Hd; cbn; rewrite ?Hd;
        split_and!; try done; intros _; by left.
  - unfold close_end, _emitClose, close_budget, closes.
    destruct (closing m) as [|n] eqn:Hc.
    + split_and!; try done. intros _. split; [lia|done].
    + cbn [_didEmitClose set_reader].
      destruct (_didEmitClose (transport m)) eqn:Hd; cbn; rewrite ?Hd;
        split_and!; try done; intros _; (split; [done|lia]).
Qed.

Lemma stream_run_closes (ops : list stream_op) :
  ∀ m : stream,
    (closes (snd (stream_run m ops))
       + close_budget (transport (fst (stream_run m ops))))%nat
      = close_budget (transport m) ∧
    ((_didEmitClose (transport m) = true ∨ (0 < closing m)%nat
      ∨ existsb is_close_call ops = true) →
     _didEmitClose (transport (fst (stream_run m ops))) = true
     ∨ (0 < closing (fst (stream_run m ops)))%nat).
Proof.
  induction ops as [|o ops IH]; intros m; cbn [stream_run existsb].
  - split; [cbn; lia|]. cbn [fst]. intros [?|[?|?]]; [by left|by right|done].
  - destruct (stream_step_closes m o) as (Hb & Hr & Hc & Hs).
    destruct (stream_step m o) as [m' obs] eqn:Hstep.
    destruct (IH m') as [Hb' Hp'].
    destruct (stream_run m' ops) as [m'' obs']. cbn [fst snd] in *.
    rewrite closes_app. split; [lia|].
    intros Hpre. apply Hp'.
    assert (Hmono : _didEmitClose (transport m) = true →
                    _didEmitClose (transport m') = true).
    { unfold close_budget in Hb. intros Hd. rewrite Hd in Hb.
      destruct (_didEmitClose (transport m')); [done|lia]. }
    destruct o as [r| |]; cbn [is_close_call orb] in Hpre.
    + specialize (Hr eq_refl). rewrite Hr.
      destruct Hpre as [?|[?|?]]; [left; by apply Hmono|by right; left|by right; right].
    + destruct (Hc eq_refl); [by left|by right; left].
    + destruct (Hs eq_refl) as [Hpos Hzero].
      destruct Hpre as [?|[?|?]]; [left; by apply Hmono|left; by apply Hpos|by right; right].
Qed.

(** X17. [close()] on a stream that has not reported its end yet leads to exactly
    one [onclose]: whatever reads, further [close()] calls and cancellations
    are interleaved with it, once every [close()] has run to its end
    [onclose] has been invoked once, no more and no less. *)
Theorem client_close_notifies_exactly_once (m : stream) (ops : list stream_op) :
  _didEmitClose (transport m) = false →
  existsb is_close_call ops = true →
  closing (fst (stream_run m ops)) = 0%nat →
  closes (snd (stream_run m ops)) = 1%nat.
Proof.
  intros Hd Hclose Hend.
  destruct (stream_run_closes ops m) as [Hb Hp].
  destruct Hp as [Hemit|Hpos]; [by right; right| |lia].
  unfold close_budget in Hb. rewrite Hd, Hemit in Hb. lia.
Qed.

End SSEClientStream.

Section SSEClientEndpoint.
Import SSEClient.
Context `{Platform}.

(** *** The endpoint *)

(** X18. The endpoint is stored before its origin is compared with that of the
    connection, and a failed comparison does not clear it. When an endpoint
    event names a URL of another origin, the loop ends and the error is the
    reason [start()] rejects with, or goes to [onerror] when [start()] had
    resolved before; but [_endpoint] now holds that URL, so a [send] that
    follows is not refused: it posts the message to the URL of the other
    origin. *)
Theorem rejected_endpoint_is_kept (m : stream) (value : EventSourceMessage)
    (endpoint : URL) :
  reading m = true →
  eventName value = "endpoint" →
  URL_new (data value) (href (_url (transport m))) = Some endpoint →
  origin endpoint ≠ origin (_url (transport m)) →
  snd (stream_step m (ReadSettles (ReadValue (Some value)))) =
    (let error := new_Error ("Endpoint origin does not match connection origin: "
                             ++ origin endpoint) in
     if resolved m then [Callback (OnError error)] else [StartRejected error]) ∧
  reading (fst (stream_step m (ReadSettles (ReadValue (Some value))))) = false ∧
  _endpoint (transport (fst (stream_step m (ReadSettles (ReadValue (Some value))))))
    = Some endpoint ∧
  ∀ (message : JSONRPCMessage) (response : Response)
    (fetches : list fetch_outcome) (auths : list auth_outcome),
    ok response = true →
    send (transport (fst (stream_step m (ReadSettles (ReadValue (Some value))))))
         message (FetchReturns response :: fetches) auths =
      (transport (fst (stream_step m (ReadSettles (ReadValue (Some value))))),
       [Fetched "POST" (href endpoint)
          (Some (JSON_stringify (message_value message)))],
       Returned).
Proof.
  intros Hread Hname Hurl Horigin.
  apply String.eqb_neq in Horigin.
  cbn [stream_step]. rewrite Hread. cbn [process_read].
  rewrite Hname, Hurl.
  change (String.eqb "endpoint" "endpoint") with true. cbn match.
  cbn [set_transport set_endpoint transport _url]. rewrite Horigin. cbn [negb].
  unfold finish. cbn [resolved transport set_transport].
  destruct (resolved m); cbn [negb fst snd transport reading];
    (split_and!; [done|done|done|]);
    intros message response fetches auths Hok;
    cbn [send _endpoint set_abortController set_reader set_endpoint];
    by rewrite Hok.
Qed.

(** A step that brings no endpoint event leaves [_endpoint] as it is. *)
Lemma stream_step_endpoint (m : stream) (o : stream_op) :
  endpoint_read o = false →
  _endpoint (transport (fst (stream_step m o))) = _endpoint (transport m).
Proof.
  intros Ho. destruct o as [r| |]; cbn [stream_step].
  - destruct (reading m); [|done]. unfold process_read.
    destruct r as [[value|]| |e]; try done; try apply finish_closes;
      [|destruct (_ || _); apply finish_closes].
    cbn [endpoint_read] in Ho. rewrite Ho.
    destruct (negb (resolved m)); [done|]. by destruct (parse_data _).
  - unfold close_begin, _emitClose. cbn [_reader _didEmitClose set_abortController].
    destruct (_reader (transport m)); [done|].
    by destruct (_didEmitClose (transport m)).
  - unfold close_end, _emitClose. destruct (closing m); [done|].
    cbn [_didEmitClose set_reader].
    by destruct (_didEmitClose (transport m)).
Qed.

Lemma stream_run_endpoint (ops : list stream_op) :
  ∀ m : stream,
    (∀ o : stream_op, o ∈ ops → endpoint_read o = false) →
    _endpoint (transport (fst (stream_run m ops))) = _endpoint (transport m).
Proof.
  induction ops as [|o ops IH]; intros m Hops; [done|].
  cbn [stream_run].
  pose proof (stream_step_endpoint m o (Hops o (list_elem_of_here _ _))) as Hstep.
  destruct (stream_step m o) as [m' obs].
  specialize (IH m' (λ o' Hin, Hops o' (list_elem_of_further _ _ _ Hin))).
  destruct (stream_run m' ops) as [m'' obs']. cbn [fst] in *. congruence.
Qed.

(** X19. Each [start()] forgets the endpoint of the stream before: from a
    transport that [start()] does not refuse, and until the new stream
    brings an endpoint event, [send] is refused with "Not connected",
    without a request and without a call of [onerror], whether the
    connection attempt succeeds, fails or is still pending. *)
Theorem send_needs_endpoint_event (t : SSEClientTransport)
    (fetches : list fetch_outcome) (auths : list auth_outcome)
    (ops : list stream_op) (message : JSONRPCMessage)
    (fetches' : list fetch_outcome) (auths' : list auth_outcome) :
  startable t = true →
  (∀ o : stream_op, o ∈ ops → endpoint_read o = false) →
  send (transport (fst (start t fetches auths ops))) message fetches' auths' =
    (transport (fst (start t fetches auths ops)), [],
     Threw (new_Error "Not connected")).
Proof.
  intros Hstart Hops.
  assert (Hnone : _endpoint (transport (fst (start t fetches auths ops))) = None).
  { unfold start. unfold startable in Hstart. apply negb_true_iff in Hstart.
    rewrite Hstart.
    destruct (_startStream_ends fetches t auths) as (He & _).
    destruct (_startStream t fetches auths) as [[t' obs] [|e|]];
      cbn [fst snd] in *; try done.
    pose proof (stream_run_endpoint ops (opened t') Hops) as Hrun.
    destruct (stream_run (opened t') ops) as [m obs']. cbn [fst] in *.
    by rewrite Hrun. }
  destruct fetches'; cbn [send]; by rewrite Hnone.
Qed.

(** X20. [close()] does not disconnect [send]. Once an endpoint is known it
    stays: neither [close()], nor the end of the stream, nor an error of
    the stream clears [_endpoint]; only a new endpoint event or a new
    [start()] replaces it. So after any such steps [send] still posts the
    message to the endpoint. *)
Theorem close_does_not_disconnect_send (m : stream) (ops : list stream_op)
    (endpoint : URL) (message : JSONRPCMessage) (response : Response)
    (fetches : list fetch_outcome) (auths : list auth_outcome) :
  _endpoint (transport m) = Some endpoint →
  (∀ o : stream_op, o ∈ ops → endpoint_read o = false) →
  ok response = true →
  send (transport (fst (stream_run m ops))) message
       (FetchReturns response :: fetches) auths =
    (transport (fst (stream_run m ops)),
     [Fetched "POST" (href endpoint) (Some (JSON_stringify (message_value message)))],
     Returned).
Proof.
  intros He Hops Hok.
  pose proof (stream_run_endpoint ops m Hops) as Hrun. rewrite He in Hrun.
  cbn [send]. by rewrite Hrun, Hok.
Qed.

(** *** Starting again *)




End SSEClientEndpoint.

(** *** The stdio and SSE client transports on concrete inputs *)

Section FurtherExamples.

Lemma stdio_server_chunking_independent_witness :
  StdioServer.feed listening_server
      ["not "; "json" ++ LF ++ "{jsonrpc"; ":2.0}" ++ LF ++ "{"] =
    StdioServer.feed listening_server
      ["not json" ++ LF; "{jsonrpc:2.0}" ++ LF ++ "{"] ∧
  StdioServer.feed listening_server
      ["not "; "json" ++ LF ++ "{jsonrpc"; ":2.0}" ++ LF ++ "{"] =
    Some ({| StdioServer._readBuffer :=
               snd (ReadBuffer.split_lines
                      (StdioServer._readBuffer listening_server
                       ++ String.concat ""
                            ["not "; "json" ++ LF ++ "{jsonrpc"; ":2.0}" ++ LF ++ "{"]));
             StdioServer._started := StdioServer._started listening_server;
             StdioServer._stdin := StdioServer._stdin listening_server |},
          ReadBuffer.deliver <$>
            fst (ReadBuffer.split_lines
                   (StdioServer._readBuffer listening_server
                    ++ String.concat ""
                         ["not "; "json" ++ LF ++ "{jsonrpc"; ":2.0}" ++ LF ++ "{"]))).
Proof.
  apply (stdio_server_chunking_independent (H := toy_platform) listening_server
           ["not "; "json" ++ LF ++ "{jsonrpc"; ":2.0}" ++ LF ++ "{"]
           ["not json" ++ LF; "{jsonrpc:2.0}" ++ LF ++ "{"]);
    reflexivity.
Defined.

(** The same bytes in other chunks: one error, one message, and the open
    brace kept for later. *)
Example stdio_server_three_chunks :
  StdioServer.feed listening_server ["not "; "json" ++ LF ++ "{jsonrpc"; ":2.0}" ++ LF ++ "{"] =
    Some ({| StdioServer._readBuffer := "{";
             StdioServer._started := true;
             StdioServer._stdin := StdioServer._stdin listening_server |},
          [OnError (named_Error "SyntaxError" "Unexpected token");
           OnMessage "{jsonrpc:2.0}" None]).
Proof. reflexivity. Qed.

Lemma stdio_server_close_is_final_witness :
  ∃ (t' : StdioServer.StdioServerTransport) (cbs : list callback),
    StdioServer.run (fst (StdioServer.close listening_server))
      [StdioServer.StdinData (valid_line ++ LF); StdioServer.CallStart;
       StdioServer.StdinError (new_Error "EPIPE"); StdioServer.CallClose]
      = Some (t', cbs) ∧
    (∀ c : callback, c ∈ cbs → c = OnClose) ∧
    StdioServer._readBuffer t' = "" ∧
    StdioServer.start t' =
      inl (new_Error "StdioServerTransport already started! If using Server class, note that connect() calls start() automatically.").
Proof.
  apply (stdio_server_close_is_final (H := toy_platform) listening_server
           [StdioServer.StdinData (valid_line ++ LF); StdioServer.CallStart;
            StdioServer.StdinError (new_Error "EPIPE"); StdioServer.CallClose]).
  reflexivity.
Defined.

Lemma stdio_round_trip_witness :
  (∀ (client : StdioClient.StdioClientTransport) (child : StdioClient.ChildProcess)
     (server : StdioServer.StdioServerTransport) (chunks : list string),
     StdioClient._process client = Some child →
     StdioClient.has_stdin child = true →
     StdioServer._readBuffer server = "" →
     StdioClient.written client [(valid_line, true); ("{jsonrpc:2.0,id:1}", false)]
       = Some (String.concat "" chunks) →
     StdioServer.feed server chunks =
       Some (server, (λ ma, OnMessage ma.1 None) <$>
                       [(valid_line, true); ("{jsonrpc:2.0,id:1}", false)])) ∧
  (∀ (client : StdioClient.StdioClientTransport) (chunks : list string),
     StdioClient._readBuffer client = "" →
     String.concat "" chunks =
       StdioServer.written [(valid_line, true); ("{jsonrpc:2.0,id:1}", false)] →
     StdioClient.run client (StdioClient.StdoutData <$> chunks) =
       Some (client, (λ ma, OnMessage ma.1 None) <$>
                       [(valid_line, true); ("{jsonrpc:2.0,id:1}", false)])).
Proof.
  apply (stdio_round_trip (H := toy_platform)
           [(valid_line, true); ("{jsonrpc:2.0,id:1}", false)]).
  intros m a Hin. apply list_elem_of_In in Hin.
  destruct Hin as [[= <- <-]|[[= <- <-]|[]]]; split; reflexivity.
Defined.

(** A client's two messages, cut in the middle of the first, as a server
    receives them. *)
Example stdio_client_to_server :
  StdioClient.written running_client [(valid_line, true); ("{jsonrpc:2.0,id:1}", false)]
    = Some (String.concat ""
              ["{jsonrpc:2.0,"; "method:ping}" ++ LF ++ "{jsonrpc:2.0,id:1}" ++ LF]) ∧
  StdioServer.feed listening_server
      ["{jsonrpc:2.0,"; "method:ping}" ++ LF ++ "{jsonrpc:2.0,id:1}" ++ LF]
    = Some (listening_server,
            [OnMessage valid_line None; OnMessage "{jsonrpc:2.0,id:1}" None]).
Proof. split; reflexivity. Qed.

Section Client.
Import SSEClient.


(** When [auth] answers with a redirect, [start()] rejects with an error
    that [onerror] does not get. *)
Example connect_redirect_not_reported :
  start fresh_client [FetchReturns (response_of 401)] [AuthReturns REDIRECT] [] =
    (idle (constructor sse_url true),
     [Fetched "GET" "http://localhost:3000/sse" None; AuthCalled;
      StartRejected (named_Error "UnauthorizedError" "Unauthorized")]).
Proof. reflexivity. Qed.

Lemma connect_reauthenticates_every_401_witness :
  (_startStream fresh_client
     (repeat (FetchReturns (response_of 401)) 3 ++ [FetchReturns (response_of 200)])
     (repeat (AuthReturns AUTHORIZED) 3)).2 = Connected ∧
  count is_auth
    (_startStream fresh_client
       (repeat (FetchReturns (response_of 401)) 3 ++ [FetchReturns (response_of 200)])
       (repeat (AuthReturns AUTHORIZED) 3)).1.2 = 3%nat ∧
  count is_get
    (_startStream fresh_client
       (repeat (FetchReturns (response_of 401)) 3 ++ [FetchReturns (response_of 200)])
       (repeat (AuthReturns AUTHORIZED) 3)).1.2 = 4%nat ∧
  count is_error
    (_startStream fresh_client
       (repeat (FetchReturns (response_of 401)) 3 ++ [FetchReturns (response_of 200)])
       (repeat (AuthReturns AUTHORIZED) 3)).1.2 = 0%nat.
Proof.
  apply (connect_reauthenticates_every_401 (H := toy_platform) 3
           (response_of 401) (response_of 200)); reflexivity.
Defined.

(** The stream of a client that has connected and got its endpoint. *)
Lemma stream_delivers_each_event_witness :
  stream_run
    (fst (start fresh_client [FetchReturns (response_of 200)] []
            [endpoint_event "/messages?sessionId=1"]))
    ((λ value, ReadSettles (ReadValue (Some value))) <$>
       [ {| event := None; data := "not json" |};
         {| event := Some "message"; data := valid_line |} ])
  = (fst (start fresh_client [FetchReturns (response_of 200)] []
            [endpoint_event "/messages?sessionId=1"]),
     deliver_data <$>
       [ {| event := None; data := "not json" |};
         {| event := Some "message"; data := valid_line |} ]).
Proof.
  apply (stream_delivers_each_event (H := toy_platform)
           (fst (start fresh_client [FetchReturns (response_of 200)] []
                   [endpoint_event "/messages?sessionId=1"]))
           [ {| event := None; data := "not json" |};
             {| event := Some "message"; data := valid_line |} ]).
  - reflexivity.
  - reflexivity.
  - intros value Hin. apply list_elem_of_In in Hin.
    destruct Hin as [<-|[<-|[]]]; discriminate.
Defined.

Lemma client_close_notifies_exactly_once_witness :
  closes
    (snd (stream_run
            (fst (start fresh_client [FetchReturns (response_of 200)] []
                    [endpoint_event "/messages?sessionId=1"]))
            [CloseCalled; ReadSettles ReadDone; CloseCalled; CancelSettles;
             CancelSettles])) = 1%nat.
Proof.
  apply (client_close_notifies_exactly_once (H := toy_platform)
           (fst (start fresh_client [FetchReturns (response_of 200)] []
                   [endpoint_event "/messages?sessionId=1"]))
           [CloseCalled; ReadSettles ReadDone; CloseCalled; CancelSettles;
            CancelSettles]); reflexivity.
Defined.

End Client.

End FurtherExamples.

Section EndpointExamples.
Import SSEClient.

Lemma rejected_endpoint_is_kept_witness :
  snd (stream_step (opened fresh_client)
         (endpoint_event "http://evil.example/collect")) =
    (let error := new_Error ("Endpoint origin does not match connection origin: "
                             ++ origin foreign_endpoint) in
     if resolved (opened fresh_client)
     then [Callback (OnError error)] else [StartRejected error]) ∧
  reading (fst (stream_step (opened fresh_client)
                  (endpoint_event "http://evil.example/collect"))) = false ∧
  _endpoint (transport (fst (stream_step (opened fresh_client)
                               (endpoint_event "http://evil.example/collect"))))
    = Some foreign_endpoint ∧
  ∀ (message : JSONRPCMessage) (response : Response)
    (fetches : list fetch_outcome) (auths : list auth_outcome),
    ok response = true →
    send (transport (fst (stream_step (opened fresh_client)
                            (endpoint_event "http://evil.example/collect"))))
         message (FetchReturns response :: fetches) auths =
      (transport (fst (stream_step (opened fresh_client)
                         (endpoint_event "http://evil.example/collect"))),
       [Fetched "POST" (href foreign_endpoint)
          (Some (JSON_stringify (message_value message)))],
       Returned).
Proof.
  apply (rejected_endpoint_is_kept (H := toy_platform) (opened fresh_client)
           {| event := Some "endpoint"; data := "http://evil.example/collect" |}
           foreign_endpoint).
  - reflexivity.
  - reflexivity.
  - reflexivity.
  - discriminate.
Defined.

(** [start()] rejects because the endpoint is on another host, and the
    [send] that follows posts to that host. *)
Example send_after_rejected_endpoint :
  start fresh_client [FetchReturns (response_of 200)] []
      [endpoint_event "http://evil.example/collect"] =
    ({| transport := set_endpoint (Some foreign_endpoint) fresh_client;
        resolved := false; aborted := false; reading := false; closing := 0 |},
     [Fetched "GET" "http://localhost:3000/sse" None;
      StartRejected (new_Error "Endpoint origin does not match connection origin: http://evil.example")]) ∧
  send (set_endpoint (Some foreign_endpoint) fresh_client) ping
      [FetchReturns (response_of 200)] [] =
    (set_endpoint (Some foreign_endpoint) fresh_client,
     [Fetched "POST" "http://evil.example/collect" (Some ping)], Returned).
Proof. split; reflexivity. Qed.

(** The client whose stream has ended still holds the endpoint of that
    stream; a new [start()] drops it. *)
Example ended_client_endpoint :
  href <$> _endpoint ended_client = Some "http://localhost:3000/messages?sessionId=1".
Proof. reflexivity. Qed.

Lemma send_needs_endpoint_event_witness :
  send (transport (fst (start ended_client [FetchReturns (response_of 200)] []
                          [message_event valid_line; CloseCalled])))
       ping [FetchReturns (response_of 200)] [] =
    (transport (fst (start ended_client [FetchReturns (response_of 200)] []
                       [message_event valid_line; CloseCalled])),
     [], Threw (new_Error "Not connected")).
Proof.
  apply (send_needs_endpoint_event (H := toy_platform) ended_client
           [FetchReturns (response_of 200)] []
           [message_event valid_line; CloseCalled] ping
           [FetchReturns (response_of 200)] []).
  - reflexivity.
  - intros o Hin. apply list_elem_of_In in Hin.
    destruct Hin as [<-|[<-|[]]]; reflexivity.
Defined.

Lemma close_does_not_disconnect_send_witness :
  send (transport
          (fst (stream_run
                  (fst (start fresh_client [FetchReturns (response_of 200)] []
                          [endpoint_event "/messages?sessionId=1"]))
                  [CloseCalled; CancelSettles; ReadSettles ReadDone])))
       ping [FetchReturns (response_of 200)] [] =
    (transport
       (fst (stream_run
               (fst (start fresh_client [FetchReturns (response_of 200)] []
                       [endpoint_event "/messages?sessionId=1"]))
               [CloseCalled; CancelSettles; ReadSettles ReadDone])),
     [Fetched "POST"
        (href (Toy.parse_path "http://localhost:3000" "/messages?sessionId=1"))
        (Some (JSON_stringify (message_value ping)))],
     Returned).
Proof.
  apply (close_does_not_disconnect_send (H := toy_platform)
           (fst (start fresh_client [FetchReturns (response_of 200)] []
                   [endpoint_event "/messages?sessionId=1"]))
           [CloseCalled; CancelSettles; ReadSettles ReadDone]
           (Toy.parse_path "http://localhost:3000" "/messages?sessionId=1")
           ping (response_of 200) [] []).
  - reflexivity.
  - intros o Hin. apply list_elem_of_In in Hin.
    destruct Hin as [<-|[<-|[<-|[]]]]; reflexivity.
  - reflexivity.
Defined.

(** After [close()] the message still goes out. *)
Example send_after_close :
  (send (transport
           (fst (stream_run
                   (fst (start fresh_client [FetchReturns (response_of 200)] []
                           [endpoint_event "/messages?sessionId=1"]))
                   [CloseCalled; CancelSettles; ReadSettles ReadDone])))
        ping [FetchReturns (response_of 200)] []).1.2 =
    [Fetched "POST" "http://localhost:3000/messages?sessionId=1" (Some ping)].
Proof. reflexivity. Qed.


End EndpointExamples.

Section SSEClientSend.
Import SSEClient.
Context `{Platform}.

(** *** Sending *)

(** X22. With an endpoint known, a [send] that rejects has reported the error it
    rejects with to [onerror], once and as the last thing it did, whatever
    failed: the request, the response, or the authorization after a 401
    (here, unlike in [start()], also when [auth] returns something other
    than AUTHORIZED). A [send] that resolves has called [onerror] not at
    all. Either way [_endpoint] is left as it was. *)
Theorem send_failure_reported_once (message : JSONRPCMessage)
    (fetches : list fetch_outcome) :
  ∀ (t : SSEClientTransport) (auths : list auth_outcome) (endpoint : URL),
    _endpoint t = Some endpoint →
    _endpoint (send t message fetches auths).1.1 = Some endpoint ∧
    (∀ e : Error,
       (send t message fetches auths).2 = Threw e →
       last (send t message fetches auths).1.2 = Some (Callback (OnError e)) ∧
       count is_error (send t message fetches auths).1.2 = 1%nat) ∧
    ((send t message fetches auths).2 = Returned →
     count is_error (send t message fetches auths).1.2 = 0%nat).
Proof.
  induction fetches as [|[error|response] fetches IH]; intros t auths endpoint He;
    cbn [send]; rewrite He.
  - split_and!; done.
  - split_and!; try done. intros e [= <-]. done.
  - destruct (ok response); [split_and!; done|].
    destruct ((status response =? 401)%Z && _authProvider t).
    + destruct auths as [|[error|[|]] auths].
      * split_and!; done.
      * split_and!; try done. intros e [= <-]. done.
      * match goal with |- context [send ?t' message fetches auths] =>
          destruct (IH t' auths endpoint He) as (Hend & Hthrew & Hret);
          destruct (send t' message fetches auths) as [[t'' obs] c]
        end.
        cbn [fst snd] in *. split_and!; try done.
        intros e Hc. destruct (Hthrew e Hc) as [Hl Hn].
        by rewrite !last_cons, Hl.
      * split_and!; try done. intros e [= <-]. done.
    + split_and!; try done. intros e [= <-]. done.
Qed.

End SSEClientSend.

Section SSEClientSendExamples.
Import SSEClient.

Lemma send_failure_reported_once_witness :
  _endpoint (send ended_client ping [FetchReturns (response_of 500)] []).1.1
    = Some (Toy.parse_path "http://localhost:3000" "/messages?sessionId=1") ∧
  (∀ e : Error,
     (send ended_client ping [FetchReturns (response_of 500)] []).2 = Threw e →
     last (send ended_client ping [FetchReturns (response_of 500)] []).1.2
       = Some (Callback (OnError e)) ∧
     count is_error (send ended_client ping [FetchReturns (response_of 500)] []).1.2
       = 1%nat) ∧
  ((send ended_client ping [FetchReturns (response_of 500)] []).2 = Returned →
   count is_error (send ended_client ping [FetchReturns (response_of 500)] []).1.2
     = 0%nat).
Proof.
  apply (send_failure_reported_once (H := toy_platform) ping
           [FetchReturns (response_of 500)] ended_client []
           (Toy.parse_path "http://localhost:3000" "/messages?sessionId=1")).
  reflexivity.
Defined.

(** A POST answered 500: one request, one [onerror], and the rejection. *)
Example send_http_500 :
  send ended_client ping [FetchReturns (response_of 500)] [] =
    (ended_client,
     [Fetched "POST" "http://localhost:3000/messages?sessionId=1" (Some ping);
      Callback (OnError (new_Error "Error POSTing to endpoint (HTTP 500): "))],
     Threw (new_Error "Error POSTing to endpoint (HTTP 500): ")).
Proof. reflexivity. Qed.

End SSEClientSendExamples.
